(** * Client-side synchronisation core of the restaurant ordering app

    A shallow embedding of the cart hook ([useCart]), the realtime handlers of
    [useMenu] and [useOrders], the offline order queue ([offlineOrderQueue])
    and the service worker's caching strategies, followed by the properties
    established about them.

    Conventions of the embedding:
    - a React state updater [setX(prev => e)] is the pure function [prev => e];
    - JavaScript strings are [string], [===] on strings is [String.eqb];
    - integer-valued JavaScript numbers (quantities, counters, millisecond
      timestamps, HTTP status codes) are [Z]; prices are carried as [Q] and
      never computed with here;
    - a settled promise is a value of [Settled]; a capability supplied by the
      environment (the network, the availability check) is a function
      argument. *)

From Stdlib Require Import ZArith List String Bool Lia.
From Stdlib Require QArith_base.
Import ListNotations.

Local Open Scope string_scope.
Local Open Scope list_scope.
Local Open Scope Z_scope.

(* ------------------------------------------------------------------ *)
(** ** Shared data *)

Module Data.

(** A row of the menu table, as delivered by the backend. *)
Record MenuItem := mkMenuItem {
  mi_id : string;
  mi_name : string;
  mi_price : QArith_base.Q;
  mi_category : string;
  mi_image_url : option string;
  mi_preparation_time : option Z;
  mi_is_available : bool
}.

(** A row of the orders table. *)
Record Order := mkOrder {
  ord_id : string;
  ord_table_number : Z;
  ord_total_amount : QArith_base.Q;
  ord_status : string;
  ord_session_id : string
}.

(** The outcome of awaiting a promise. *)
Inductive Settled (A : Type) : Type :=
| Fulfilled (value : A)
| Rejected (message : string).

Arguments Fulfilled {A} value.
Arguments Rejected {A} message.

End Data.

(* ------------------------------------------------------------------ *)
(** ** Cart hook: src/hooks/useCart.js *)

Module Cart.
Import Data.

Record CartLine := mkCartLine {
  id : string;
  name : string;
  price : QArith_base.Q;
  category : string;
  image_url : option string;
  preparation_time : option Z;
  quantity : Z;
  specialInstructions : string;
  cartId : string
}.

Definition cart := list CartLine.

(** [Array.prototype.findIndex]; [None] stands for the result [-1]. *)
Fixpoint findIndex {A : Type} (p : A -> bool) (l : list A) : option nat :=
  match l with
  | [] => None
  | x :: t => if p x then Some O else option_map S (findIndex p t)
  end.

(** [arr[i] = f(arr[i])] on a copy of [arr], for [i] within bounds. *)
Fixpoint update_at {A : Type} (i : nat) (f : A -> A) (l : list A) : list A :=
  match l, i with
  | [], _ => []
  | x :: t, O => f x :: t
  | x :: t, S j => x :: update_at j f t
  end.

Definition set_quantity (q : Z) (l : CartLine) : CartLine :=
  mkCartLine (id l) (name l) (price l) (category l) (image_url l)
             (preparation_time l) q (specialInstructions l) (cartId l).

Definition set_specialInstructions (s : string) (l : CartLine) : CartLine :=
  mkCartLine (id l) (name l) (price l) (category l) (image_url l)
             (preparation_time l) (quantity l) s (cartId l).

(** The predicate handed to [findIndex] by [addToCart]. *)
Definition same_line (menuItemId instr : string) (item : CartLine) : bool :=
  (id item =? menuItemId)%string && (specialInstructions item =? instr)%string.

(** The line appended by [addToCart]. [suffix] stands for the text
    [`${Date.now()}_${Math.random().toString(36).substr(2, 9)}`]. *)
Definition new_line (menuItem : MenuItem) (qty : Z) (instr suffix : string)
  : CartLine :=
  mkCartLine (mi_id menuItem) (mi_name menuItem) (mi_price menuItem)
             (mi_category menuItem) (mi_image_url menuItem)
             (mi_preparation_time menuItem) qty instr
             (mi_id menuItem ++ "_" ++ suffix)%string.

(** [addToCart(menuItem, quantity, specialInstructions)], lines 32-61. *)
Definition addToCart (menuItem : MenuItem) (qty : Z) (instr suffix : string)
           (prevCart : cart) : cart :=
  match findIndex (same_line (mi_id menuItem) instr) prevCart with
  | Some existingItemIndex =>
      update_at existingItemIndex
                (fun l => set_quantity (quantity l + qty) l) prevCart
  | None => prevCart ++ [new_line menuItem qty instr suffix]
  end.

(** [removeFromCart(cartId)], lines 80-82. *)
Definition removeFromCart (cid : string) (prevCart : cart) : cart :=
  filter (fun item => negb (cartId item =? cid)%string) prevCart.

(** [updateQuantity(cartId, newQuantity)], lines 64-77. *)
Definition updateQuantity (cid : string) (newQuantity : Z) (prevCart : cart)
  : cart :=
  if newQuantity <=? 0 then removeFromCart cid prevCart
  else map (fun item => if (cartId item =? cid)%string
                        then set_quantity newQuantity item else item)
           prevCart.

(** [clearCart()], lines 85-87. *)
Definition clearCart (prevCart : cart) : cart := [].

(** [updateSpecialInstructions(cartId, instructions)], lines 90-98. *)
Definition updateSpecialInstructions (cid instructions : string)
           (prevCart : cart) : cart :=
  map (fun item => if (cartId item =? cid)%string
                   then set_specialInstructions instructions item else item)
      prevCart.

(** One call of [addToCart]: the menu item, the quantity and the text that
    makes the fresh [cartId]. The instructions are fixed by the caller. *)
Record AddCall := mkAddCall {
  call_item : MenuItem;
  call_quantity : Z;
  call_suffix : string
}.

Definition addAll (instr : string) (calls : list AddCall) (c : cart) : cart :=
  fold_left (fun acc k =>
               addToCart (call_item k) (call_quantity k) instr (call_suffix k) acc)
            calls c.

(** The lines of a cart that [addToCart] regards as the line of a pair. *)
Definition lines_for (menuItemId instr : string) (c : cart) : list CartLine :=
  filter (same_line menuItemId instr) c.

Definition sum_quantity (ls : list CartLine) : Z :=
  fold_right (fun l acc => quantity l + acc) 0 ls.

Definition sum_added (calls : list AddCall) : Z :=
  fold_right (fun k acc => call_quantity k + acc) 0 calls.

(** *** validateCart, lines 157-185 *)

(** What the availability capability resolves to. *)
Record Availability := mkAvailability {
  allAvailable : bool;
  unavailableIds : list string   (* the field [unavailableItems] *)
}.

Definition CheckAvailabilityFn := list string -> Settled Availability.

(** The object [validateCart] resolves to: [{ valid, unavailableItems }] or
    [{ valid, error }]. *)
Record Validation := mkValidation {
  valid : bool;
  unavailableItems : option (list CartLine);
  error : option string
}.

(** Everything observable of one run of [validateCart]: the value it resolves
    to, the cart afterwards, the arguments of each call of the capability and
    the values written with [setIsLoading], both in order. *)
Record ValidateRun := mkValidateRun {
  result : Validation;
  cart_after : cart;
  check_calls : list (list string);
  loading_writes : list bool
}.

Definition includes (ids : list string) (x : string) : bool :=
  existsb (fun y => (y =? x)%string) ids.

(** [[...new Set(xs)]]: the distinct elements in order of first occurrence. *)
Fixpoint distinct (seen xs : list string) : list string :=
  match xs with
  | [] => []
  | x :: t => if includes seen x then distinct seen t
              else x :: distinct (x :: seen) t
  end.

Definition validateCart (checkAvailabilityFn : CheckAvailabilityFn) (c : cart)
  : ValidateRun :=
  match c with
  | [] => mkValidateRun (mkValidation true (Some []) None) c [] []
  | _ :: _ =>
      let menuItemIds := distinct [] (map id c) in
      match checkAvailabilityFn menuItemIds with
      | Fulfilled availability =>
          if negb (allAvailable availability) then
            let gone := filter (fun item =>
                          includes (unavailableIds availability) (id item)) c in
            let kept := filter (fun item =>
                          negb (includes (unavailableIds availability) (id item))) c in
            mkValidateRun (mkValidation false (Some gone) None) kept
                          [menuItemIds] [true; false]
          else
            mkValidateRun (mkValidation true (Some []) None) c
                          [menuItemIds] [true; false]
      | Rejected message =>
          mkValidateRun (mkValidation false None (Some message)) c
                        [menuItemIds] [true; false]
      end
  end.

(** *** Sample data *)

Definition pizza : MenuItem :=
  mkMenuItem "pizza" "Pizza" (QArith_base.Qmake 1299 100) "mains" None
             (Some 20) true.

Definition pizza_line : CartLine := new_line pizza 2 "" "1700000000000_k3j9x0q1z".

(** A cart reached from the empty cart with the hook's own operations in
    which two lines carry the same pair: the second line's notes are edited
    until they equal the first line's. *)
Definition twin_cart : cart :=
  updateSpecialInstructions "pizza_1700000000100_bbbbbbbbb" ""
    (addToCart pizza 1 "no onions" "1700000000100_bbbbbbbbb"
       (addToCart pizza 2 "" "1700000000000_k3j9x0q1z" [])).

End Cart.

(* ------------------------------------------------------------------ *)
(** ** Realtime handlers of useMenu and useOrders

    The useMenu handler is at lines 319-354 of src/styles/mobile-fixes.css
    (the file carries the hook after the style sheet), the useOrders handler
    at lines 417-457 of src/hooks/useCart.js. *)

Module Reconciler.
Import Data.

(** A [postgres_changes] notification on a table with rows of type [R]:
    [payload.eventType] with [payload.new] or [payload.old]. *)
Inductive Payload (R : Type) : Type :=
| INSERT (new : R)
| UPDATE (new : R)
| DELETE (old : R)
| UNKNOWN (eventType : string).

Arguments INSERT {R} new.
Arguments UPDATE {R} new.
Arguments DELETE {R} old.
Arguments UNKNOWN {R} eventType.

(** The [default] branch of both handlers asks for a refetch and leaves the
    list to it. *)
Definition refetches {R : Type} (payload : Payload R) : bool :=
  match payload with
  | UNKNOWN _ => true
  | _ => false
  end.

(** The handler given to [subscribeToMenuUpdates] in useMenu, as the updater
    it applies to [menuItems]. *)
Definition menu_onChange (payload : Payload MenuItem) (prev : list MenuItem)
  : list MenuItem :=
  match payload with
  | INSERT new => prev ++ [new]
  | UPDATE new =>
      map (fun item => if (mi_id item =? mi_id new)%string then new else item) prev
  | DELETE old =>
      filter (fun item => negb (mi_id item =? mi_id old)%string) prev
  | UNKNOWN _ => prev
  end.

(** The handler given to [subscribeToOrderUpdates] in useOrders, as the
    updater it applies to [orders]. *)
Definition orders_onChange (payload : Payload Order) (prev : list Order)
  : list Order :=
  match payload with
  | INSERT new =>
      let exists_ := existsb (fun order => (ord_id order =? ord_id new)%string) prev in
      if negb exists_ then new :: prev else prev
  | UPDATE new =>
      map (fun order => if (ord_id order =? ord_id new)%string then new else order) prev
  | DELETE old =>
      filter (fun order => negb (ord_id order =? ord_id old)%string) prev
  | UNKNOWN _ => prev
  end.

Definition is_insert {R : Type} (payload : Payload R) : bool :=
  match payload with
  | INSERT _ => true
  | _ => false
  end.

(** *** Sample data *)

Definition tiramisu : MenuItem :=
  mkMenuItem "7c1f" "Tiramisu" (QArith_base.Qmake 650 100) "desserts" None
             (Some 5) true.

Definition order_pending : Order :=
  mkOrder "o-1" 4 (QArith_base.Qmake 2598 100) "pending" "sess-4".

Definition order_confirmed : Order :=
  mkOrder "o-1" 4 (QArith_base.Qmake 2598 100) "confirmed" "sess-4".

End Reconciler.

(* ------------------------------------------------------------------ *)
(** ** Offline order queue: [offlineStorage] and [offlineOrderQueue]

    Source: unnamed/part_011. *)

Module OfflineQueue.
Import Data.

(** A record of the object store [pending_orders]. [orderData] stands for the
    fields spread from the checkout payload, which the queue never reads. *)
Record PendingOrder := mkPendingOrder {
  id : string;
  orderData : string;
  status : string;
  created_offline : bool;
  retry_count : Z;
  last_retry : option Z;
  timestamp : Z;
  updated_at : option Z
}.

(** The object store, created with [keyPath: 'id']. The list order stands
    for the order in which [getAll] hands the records out, which is the
    order of their keys. The storage calls are taken to succeed: a failing
    IndexedDB is not modelled. *)
Definition object_store := list PendingOrder.

Definition has_key (key : string) (db : object_store) : bool :=
  existsb (fun r => (id r =? key)%string) db.

(** Where a record with a new key goes: before the first record with a
    greater key. IndexedDB orders string keys by their code units, which is
    [String.ltb] on the ids the queue makes. *)
Fixpoint insert_by_key (r : PendingOrder) (db : object_store) : object_store :=
  match db with
  | [] => [r]
  | x :: t => if String.ltb (id r) (id x) then r :: x :: t
              else x :: insert_by_key r t
  end.

(** The record with the key of [r] replaced by [r], in its place. *)
Fixpoint replace_key (r : PendingOrder) (db : object_store) : object_store :=
  match db with
  | [] => []
  | x :: t => if (id x =? id r)%string then r :: t else x :: replace_key r t
  end.

(** [store.put(r)]: replaces the record with the key of [r], or adds [r]. *)
Definition put (r : PendingOrder) (db : object_store) : object_store :=
  if has_key (id r) db then replace_key r db else insert_by_key r db.

(** [offlineStorage.add(storeName, data)], lines 46-59: stamps the record;
    [store.add] fails on a key that is already there. *)
Definition storage_add (data : PendingOrder) (now : Z) (db : object_store)
  : Settled object_store :=
  if has_key (id data) db then Rejected "ConstraintError"
  else Fulfilled
         (insert_by_key
            (mkPendingOrder (id data) (orderData data) (status data)
                            (created_offline data) (retry_count data)
                            (last_retry data) now (updated_at data))
            db).

(** [offlineStorage.update(storeName, data)], lines 83-96. *)
Definition storage_update (data : PendingOrder) (now : Z) (db : object_store)
  : object_store :=
  put (mkPendingOrder (id data) (orderData data) (status data)
                      (created_offline data) (retry_count data)
                      (last_retry data) (timestamp data) (Some now)) db.

(** [offlineStorage.delete(storeName, key)], lines 98-107. *)
Definition storage_delete (key : string) (db : object_store) : object_store :=
  filter (fun r => negb (id r =? key)%string) db.

(** [offlineOrderQueue.addPendingOrder(orderData)], lines 126-143. [stamp]
    stands for [`${Date.now()}_${Math.random().toString(36).substr(2, 9)}`]. *)
Definition addPendingOrder (data stamp : string) (now : Z) (db : object_store)
  : Settled (PendingOrder * object_store) :=
  let pendingOrder :=
      mkPendingOrder ("offline_" ++ stamp)%string data "pending_sync" true 0
                     None now None in
  match storage_add pendingOrder now db with
  | Fulfilled db' => Fulfilled (pendingOrder, db')
  | Rejected message => Rejected message
  end.

(** [offlineOrderQueue.getPendingOrders()], lines 145-153. *)
Definition getPendingOrders (db : object_store) : list PendingOrder := db.

(** What the [try] block of [syncPendingOrders] can meet when it posts an
    order to [/api/orders]: a response with [ok] and its JSON body, a response
    without [ok], or an exception ([fetch] rejected, or the body did not
    parse). *)
Inductive PostOutcome :=
| PostOk (syncedOrder : Order)
| PostNotOk
| PostThrows (message : string).

Definition Network := PendingOrder -> PostOutcome.

(** An entry of [syncResults]. *)
Inductive SyncResult :=
| Synced (order : Order)                          (* { success: true, order } *)
| NotSynced (error : string) (order : PendingOrder). (* { success: false, error, order } *)

(** The record written back after a response without [ok], lines 179-183. *)
Definition retried (now : Z) (order : PendingOrder) : PendingOrder :=
  mkPendingOrder (id order) (orderData order) (status order)
                 (created_offline order) (retry_count order + 1) (Some now)
                 (timestamp order) (updated_at order).

(** The effect of one response on the store and on [syncResults]. *)
Definition settle (outcome : PostOutcome) (now : Z) (order : PendingOrder)
           (db : object_store) : object_store * SyncResult :=
  match outcome with
  | PostOk syncedOrder => (storage_delete (id order) db, Synced syncedOrder)
  | PostNotOk =>
      (storage_update (retried now order) now db, NotSynced "Server error" order)
  | PostThrows message => (db, NotSynced message order)
  end.

(** One run of the queue: the store afterwards, the value returned, and the
    orders posted to the server, in order. *)
Record Run := mkRun {
  db_after : object_store;
  syncResults : list SyncResult;
  posted : list PendingOrder
}.

(** The [for (const order of pendingOrders)] loop, lines 159-190. *)
Fixpoint sync_loop (net : Network) (now : Z) (pendingOrders : list PendingOrder)
         (acc : Run) : Run :=
  match pendingOrders with
  | [] => acc
  | order :: rest =>
      let (db', r) := settle (net order) now order (db_after acc) in
      sync_loop net now rest
                (mkRun db' (syncResults acc ++ [r]) (posted acc ++ [order]))
  end.

(** [offlineOrderQueue.syncPendingOrders()], lines 155-193. *)
Definition syncPendingOrders (net : Network) (now : Z) (db : object_store) : Run :=
  sync_loop net now (getPendingOrders db) (mkRun db [] []).

(** [!order.last_retry]: the field is missing, or it is 0. *)
Definition never_retried (order : PendingOrder) : bool :=
  match last_retry order with
  | None => true
  | Some t => t =? 0
  end.

(** The filter of [retryFailedOrders], lines 197-200. *)
Definition eligible (now : Z) (order : PendingOrder) : bool :=
  (retry_count order <? 3) &&
  (never_retried order ||
   match last_retry order with
   | Some t => now - t >? 30000
   | None => false
   end).

(** [offlineOrderQueue.retryFailedOrders()], lines 195-207. *)
Definition retryFailedOrders (net : Network) (now : Z) (db : object_store) : Run :=
  let pendingOrders := getPendingOrders db in
  let failedOrders := filter (eligible now) pendingOrders in
  if (0 <? Z.of_nat (List.length failedOrders)) then syncPendingOrders net now db
  else mkRun db [] [].

(** *** Invocations of [syncPendingOrders] that overlap

    JavaScript runs one invocation until its next [await]; there another
    invocation may run, and new ones are started by every [online] event
    and, through [retryFailedOrders], by the timer. An invocation is
    followed from one await to the next: reading the store, posting an
    order, receiving the response, and the write to the store that follows
    it. Between two such steps [addPendingOrder] may queue an order.

    [NotStarted]: called, the store not read yet. [Looping]: at the head of
    the loop, with the orders of its snapshot still to do. [InFlight]: the
    post of [order] is awaited. [Answered]: the post has settled with
    [outcome] at the time [answered_at], and the [delete] or [put] that
    follows has not reached the store yet. [Returned]: done. *)
Inductive Task :=
| NotStarted
| Looping (todo : list PendingOrder) (results : list SyncResult)
| InFlight (order : PendingOrder) (todo : list PendingOrder)
           (results : list SyncResult)
| Answered (order : PendingOrder) (outcome : PostOutcome) (answered_at : Z)
           (todo : list PendingOrder) (results : list SyncResult)
| Returned (results : list SyncResult).

(** The shared store, the invocations made so far (the first is number 0),
    and the posts made so far, each with the number of the invocation that
    made it. *)
Record World := mkWorld {
  store : object_store;
  tasks : list Task;
  posts : list (nat * PendingOrder)
}.

(** What happens next: [syncPendingOrders] is called once more, the
    invocation [who] runs up to its next await, or a record is handed to
    [offlineStorage.add] by [addPendingOrder]. *)
Inductive Action :=
| Invoke
| Resume (who : nat)
| Enqueue (data : PendingOrder).

Fixpoint set_task (who : nat) (t : Task) (ts : list Task) : list Task :=
  match ts, who with
  | [], _ => []
  | _ :: rest, O => t :: rest
  | x :: rest, S n => x :: set_task n t rest
  end.

(** The invocation [who] runs up to its next await. The network may answer
    each invocation differently. The record that the non-ok branch writes is
    built, with its [Date.now()], when the response arrives; it reaches the
    store at the next step. *)
Definition resume (net : nat -> Network) (now : Z) (who : nat) (w : World)
  : World :=
  match nth_error (tasks w) who with
  | None => w
  | Some NotStarted =>
      mkWorld (store w)
              (set_task who (Looping (getPendingOrders (store w)) []) (tasks w))
              (posts w)
  | Some (Looping [] results) =>
      mkWorld (store w) (set_task who (Returned results) (tasks w)) (posts w)
  | Some (Looping (order :: rest) results) =>
      mkWorld (store w) (set_task who (InFlight order rest results) (tasks w))
              (posts w ++ [(who, order)])
  | Some (InFlight order rest results) =>
      mkWorld (store w)
              (set_task who (Answered order (net who order) now rest results)
                        (tasks w))
              (posts w)
  | Some (Answered order outcome answered_at rest results) =>
      let (db', r) := settle outcome answered_at order (store w) in
      mkWorld db' (set_task who (Looping rest (results ++ [r])) (tasks w))
              (posts w)
  | Some (Returned _) => w
  end.

Definition step (net : nat -> Network) (now : Z) (a : Action) (w : World)
  : World :=
  match a with
  | Invoke => mkWorld (store w) (tasks w ++ [NotStarted]) (posts w)
  | Resume who => resume net now who w
  | Enqueue data =>
      match storage_add data now (store w) with
      | Fulfilled db' => mkWorld db' (tasks w) (posts w)
      | Rejected _ => w
      end
  end.

(** A schedule lists what happens, one action after the other, each with
    the value that [Date.now()] has when it happens. *)
Definition run (net : nat -> Network) (schedule : list (Z * Action))
           (w : World) : World :=
  fold_left (fun acc e => step net (fst e) (snd e) acc) schedule w.

(** The actions, all at the time [now]. *)
Definition at_time (now : Z) (actions : list Action) : list (Z * Action) :=
  map (pair now) actions.

(** The store [db] before any invocation. *)
Definition start (db : object_store) : World := mkWorld db [] [].

(** The orders with a delivery attempt in flight, one entry per attempt. *)
Definition in_flight (w : World) : list PendingOrder :=
  flat_map (fun t => match t with InFlight o _ _ => [o] | _ => [] end) (tasks w).

(** The deliveries in flight of orders with the id [key]. *)
Definition in_flight_for (key : string) (w : World) : list PendingOrder :=
  filter (fun x => (id x =? key)%string) (in_flight w).

(** The invocation still has an order with the id [key] before it: in
    flight, answered with the write to the store still to come, or waiting
    in its snapshot. *)
Definition holds (key : string) (t : Task) : Prop :=
  match t with
  | Looping todo _ => In key (map id todo)
  | InFlight order todo _ => In key (map id (order :: todo))
  | Answered order _ _ todo _ => In key (map id (order :: todo))
  | NotStarted | Returned _ => False
  end.

(** No invocation has two orders with the same id before it, and the store
    holds one record per id. *)
Definition task_distinct (t : Task) : Prop :=
  match t with
  | Looping todo _ => NoDup (map id todo)
  | InFlight order todo _ => NoDup (map id (order :: todo))
  | Answered order _ _ todo _ => NoDup (map id (order :: todo))
  | NotStarted | Returned _ => True
  end.

Definition one_record_per_id (w : World) : Prop :=
  NoDup (map id (store w)) /\ Forall task_distinct (tasks w).

(** Neither the store nor any invocation knows the id [key] any more. *)
Definition forgotten (key : string) (w : World) : Prop :=
  ~ In key (map id (store w)) /\ Forall (fun t => ~ holds key t) (tasks w).

(** The action queues an order under the id [key]. *)
Definition enqueues (key : string) (a : Action) : Prop :=
  match a with
  | Enqueue data => id data = key
  | Invoke | Resume _ => False
  end.

(** The schedule in which one invocation is made and runs alone to its
    return. *)
Definition alone (now : Z) (db : object_store) : list (Z * Action) :=
  at_time now (Invoke :: repeat (Resume 0) (3 * List.length db + 2)).

(** *** Sample data *)

Definition server_copy (order : PendingOrder) : Order :=
  mkOrder ("srv-" ++ id order)%string 4 (QArith_base.Qmake 2598 100) "pending"
          "sess-4".

Definition always_ok : Network := fun order => PostOk (server_copy order).
Definition always_500 : Network := fun _ => PostNotOk.

(** No connection: every post throws. *)
Definition no_network : Network := fun _ => PostThrows "Failed to fetch".

(** A server that accepts the order with the given id and answers 500 to
    every other. *)
Definition only_accepts (key : string) : Network :=
  fun order => if (id order =? key)%string then PostOk (server_copy order)
               else PostNotOk.

Definition queued (stamp : string) : PendingOrder :=
  mkPendingOrder ("offline_" ++ stamp)%string "{table_number:4}" "pending_sync"
                 true 0 None 1000 None.

Definition order_a : PendingOrder := queued "1000_abcdefghi".
Definition order_b : PendingOrder := queued "1001_jklmnopqr".

(** [order_b] as the store holds it after a 500 response at time 5000. *)
Definition order_b_retried : PendingOrder :=
  mkPendingOrder "offline_1001_jklmnopqr" "{table_number:4}" "pending_sync"
                 true 1 (Some 5000) 1000 (Some 5000).

(** [order_a] as the store holds it after a 500 response at time 5000. *)
Definition order_a_retried : PendingOrder :=
  mkPendingOrder "offline_1000_abcdefghi" "{table_number:4}" "pending_sync"
                 true 1 (Some 5000) 1000 (Some 5000).

(** A server that accepts [order_a] only, whichever invocation posts. *)
Definition accepts_a : nat -> Network := fun _ => only_accepts (id order_a).

(** A server that accepts everything, whichever invocation posts. *)
Definition accepts_all : nat -> Network := fun _ => always_ok.

(** A server that accepts what the first invocation posts and answers 500
    to every other invocation. *)
Definition accepts_first : nat -> Network :=
  fun who => match who with O => always_ok | S _ => always_500 end.

(** The store after one order was queued at time 1000 and runs of
    [syncPendingOrders] at the given times each met a 500 response. *)
Definition after_failures (times : list Z) : object_store :=
  match addPendingOrder "{table_number:4}" "1000_abcdefghi" 1000 [] with
  | Fulfilled (_, db0) =>
      fold_left (fun db now => db_after (syncPendingOrders always_500 now db))
                times db0
  | Rejected _ => []
  end.

Definition after_three_failures : object_store :=
  after_failures [2000; 3000; 4000].

Definition after_two_failures : object_store := after_failures [2000; 3000].

End OfflineQueue.

(* ------------------------------------------------------------------ *)
(** ** Service worker: the fetch listener and its caching strategies

    Source: unnamed/part_001. *)

Module ServiceWorker.
Import Data.

Record Request := mkRequest {
  origin : string;      (* [new URL(request.url).origin] *)
  pathname : string;    (* [new URL(request.url).pathname] *)
  search : string;      (* [new URL(request.url).search]: the query string *)
  method : string;
  mode : string
}.

Record Response := mkResponse {
  body : string;
  status : Z;
  vary : list string    (* the field values of the [Vary] header *)
}.

(** [response.ok]: the status is in the range 200-299. *)
Definition ok (r : Response) : bool := (200 <=? status r) && (status r <=? 299).

(** [request.url], as the caches compare it: origin, path and query. *)
Definition url (request : Request) : string :=
  (origin request ++ pathname request ++ search request)%string.

(** A cache, keyed by request URL. Opening a cache and looking a request up
    in it are taken to succeed. *)
Definition Cache := list (string * Response).

Fixpoint cache_match (u : string) (c : Cache) : option Response :=
  match c with
  | [] => None
  | (k, r) :: t => if (k =? u)%string then Some r else cache_match u t
  end.

(** The entry for [u] replaced by [r], or added. *)
Fixpoint cache_store (u : string) (r : Response) (c : Cache) : Cache :=
  match c with
  | [] => [(u, r)]
  | (k, r') :: t => if (k =? u)%string then (u, r) :: t
                    else (k, r') :: cache_store u r t
  end.

(** What [cache.put] accepts: the Cache API refuses a partial response
    (status 206) and a response whose [Vary] header holds [*]. *)
Definition storable (r : Response) : bool :=
  negb (status r =? 206) && negb (existsb (String.eqb "*") (vary r)).

(** [cache.put(request, response)] as the strategies call it. For a response
    that the Cache API refuses the promise of [put] rejects and nothing is
    stored. The strategies do not await that promise, so the rejection is
    lost and they go on as if nothing had happened. *)
Definition cache_put (u : string) (r : Response) (c : Cache) : Cache :=
  if storable r then cache_store u r c else c.

(** The two caches the worker keeps: [STATIC_CACHE_NAME], opened at install,
    and [DYNAMIC_CACHE_NAME]. *)
Record CacheStorage := mkCacheStorage {
  static_cache : Cache;
  dynamic_cache : Cache
}.

(** [caches.match(request)]: the first hit over the caches in the order of
    their creation. *)
Definition caches_match (u : string) (caches : CacheStorage) : option Response :=
  match cache_match u (static_cache caches) with
  | Some r => Some r
  | None => cache_match u (dynamic_cache caches)
  end.

Definition put_static (u : string) (r : Response) (caches : CacheStorage) :=
  mkCacheStorage (cache_put u r (static_cache caches)) (dynamic_cache caches).

Definition put_dynamic (u : string) (r : Response) (caches : CacheStorage) :=
  mkCacheStorage (static_cache caches) (cache_put u r (dynamic_cache caches)).

(** What a strategy hands to [event.respondWith]: how its promise settles
    ([Fulfilled None] is a promise fulfilled with [undefined]) and the caches
    once its [cache.put] calls are done. *)
Record Handled := mkHandled {
  settled : Settled (option Response);
  caches_after : CacheStorage
}.

Definition NETWORK_FIRST_URLS : list string := ["/api/"; "/menu"; "/orders"].

Definition startsWith (s pre : string) : bool := String.prefix pre s.

Definition endsWith (s suf : string) : bool :=
  (String.length suf <=? String.length s)%nat &&
  (substring (String.length s - String.length suf) (String.length suf) s
   =? suf)%string.

(** [isStaticAsset(pathname)], lines 170-179. *)
Definition isStaticAsset (path : string) : bool :=
  startsWith path "/static/" || endsWith path ".js" || endsWith path ".css" ||
  endsWith path ".png" || endsWith path ".jpg" || endsWith path ".jpeg" ||
  endsWith path ".svg" || endsWith path ".ico".

Inductive Strategy := NetworkFirst | CacheFirst | StaleWhileRevalidate.

(** The choice made by [handleGetRequest], lines 84-99. *)
Definition strategy_for (path : string) : Strategy :=
  if existsb (fun pattern => startsWith path pattern) NETWORK_FIRST_URLS
  then NetworkFirst
  else if isStaticAsset path then CacheFirst
  else StaleWhileRevalidate.

Section Worker.
(** [location.origin] of the worker, and the network as [fetch] sees it. *)
Variable location_origin : string.
Variable fetch : Request -> Settled Response.

(** [cacheFirst(request)], lines 102-120. *)
Definition cacheFirst (request : Request) (caches : CacheStorage) : Handled :=
  match caches_match (url request) caches with
  | Some cachedResponse => mkHandled (Fulfilled (Some cachedResponse)) caches
  | None =>
      match fetch request with
      | Fulfilled networkResponse =>
          mkHandled (Fulfilled (Some networkResponse))
                    (if ok networkResponse
                     then put_static (url request) networkResponse caches
                     else caches)
      | Rejected _ =>
          mkHandled (Fulfilled (Some (mkResponse "Offline" 503 []))) caches
      end
  end.

(** [networkFirst(request)], lines 123-149. In the navigation branch
    [caches.match('/offline.html')] is a promise, hence truthy: the
    function returns that promise and never the 503 response after [||]. *)
Definition networkFirst (request : Request) (caches : CacheStorage) : Handled :=
  match fetch request with
  | Fulfilled networkResponse =>
      mkHandled (Fulfilled (Some networkResponse))
                (if ok networkResponse
                 then put_dynamic (url request) networkResponse caches
                 else caches)
  | Rejected _ =>
      match caches_match (url request) caches with
      | Some cachedResponse => mkHandled (Fulfilled (Some cachedResponse)) caches
      | None =>
          if (mode request =? "navigate")%string
          then mkHandled
                 (Fulfilled
                    (caches_match (location_origin ++ "/offline.html")%string
                                  caches))
                 caches
          else mkHandled (Fulfilled (Some (mkResponse "Network error" 503 [])))
                         caches
      end
  end.

(** [staleWhileRevalidate(request)], lines 152-167. *)
Definition staleWhileRevalidate (request : Request) (caches : CacheStorage)
  : Handled :=
  let cachedResponse := cache_match (url request) (dynamic_cache caches) in
  let fetchPromise :=
      match fetch request with
      | Fulfilled networkResponse =>
          mkHandled (Fulfilled (Some networkResponse))
                    (if ok networkResponse
                     then put_dynamic (url request) networkResponse caches
                     else caches)
      | Rejected _ => mkHandled (Fulfilled cachedResponse) caches
      end in
  match cachedResponse with
  | Some r => mkHandled (Fulfilled (Some r)) (caches_after fetchPromise)
  | None => fetchPromise
  end.

(** [handleGetRequest(request)], lines 84-99. *)
Definition handleGetRequest (request : Request) (caches : CacheStorage)
  : Handled :=
  match strategy_for (pathname request) with
  | NetworkFirst => networkFirst request caches
  | CacheFirst => cacheFirst request caches
  | StaleWhileRevalidate => staleWhileRevalidate request caches
  end.

(** The fetch listener, lines 65-81. [None]: the listener returns without
    calling [event.respondWith] and the browser handles the request. *)
Definition onFetch (request : Request) (caches : CacheStorage)
  : option Handled :=
  if negb (origin request =? location_origin)%string then None
  else if (method request =? "GET")%string
       then Some (handleGetRequest request caches)
       else Some (mkHandled
                    (match fetch request with
                     | Fulfilled r => Fulfilled (Some r)
                     | Rejected message => Rejected message
                     end)
                    caches).
End Worker.

(** The router answers with a response. *)
Definition answers (h : option Handled) : Prop :=
  exists (r : Response) (caches : CacheStorage),
    h = Some (mkHandled (Fulfilled (Some r)) caches).

(** *** Sample data *)

Definition here : string := "https://table.example".

Definition get (path mode_ : string) : Request :=
  mkRequest here path "" "GET" mode_.

Definition offline : Request -> Settled Response :=
  fun _ => Rejected "TypeError: Failed to fetch".

Definition serves (r : Response) : Request -> Settled Response :=
  fun _ => Fulfilled r.

Definition menu_v1 : Response := mkResponse "[{id:7c1f}]" 200 [].
Definition server_error : Response := mkResponse "Internal Server Error" 500 [].

Definition holding_menu : CacheStorage :=
  mkCacheStorage [] [((here ++ "/menu")%string, menu_v1)].

Definition empty_caches : CacheStorage := mkCacheStorage [] [].

Definition offline_page : Response := mkResponse "<h1>You are offline</h1>" 200 [].

(** Caches in which only [/offline.html] was put. *)
Definition holding_offline_page : CacheStorage :=
  mkCacheStorage [((here ++ "/offline.html")%string, offline_page)] [].

(** A partial answer to a range request. *)
Definition partial_content : Response := mkResponse "bytes 0-99" 206 [].

(** An answer that says it varies on every request header. *)
Definition varies_on_all : Response := mkResponse "[{id:7c1f}]" 200 ["*"].

End ServiceWorker.

(* ------------------------------------------------------------------ *)
(** ** Cart hook: getters and derived values, and the availability query *)

Module CartDerived.
Import Data Cart.

(** [getCartItem(cartId)], lines 101-103; [None] is [undefined]. *)
Definition getCartItem (cid : string) (c : cart) : option CartLine :=
  find (fun item => (cartId item =? cid)%string) c.

(** [isInCart(menuItemId)], lines 106-108. *)
Definition isInCart (menuItemId : string) (c : cart) : bool :=
  existsb (fun item => (id item =? menuItemId)%string) c.

(** [getItemQuantity(menuItemId)], lines 111-115. *)
Definition getItemQuantity (menuItemId : string) (c : cart) : Z :=
  fold_left (fun total item => total + quantity item)
            (filter (fun item => (id item =? menuItemId)%string) c) 0.

(** [cartItemCount], lines 122-124. *)
Definition cartItemCount (c : cart) : Z :=
  fold_left (fun total item => total + quantity item) c 0.

(** Every line holds at least one unit. *)
Definition quantities_positive (c : cart) : Prop :=
  Forall (fun l => 1 <= quantity l) c.

(** [item.preparation_time || 15]: a missing or zero time counts as 15. *)
Definition prep_time_or_default (item : CartLine) : Z :=
  match preparation_time item with
  | Some t => if t =? 0 then 15 else t
  | None => 15
  end.

(** [estimatedPrepTime], lines 130-140. *)
Definition estimatedPrepTime (c : cart) : Z :=
  match map prep_time_or_default c with
  | [] => 0
  | t :: ts =>
      let maxPrepTime := fold_left Z.max ts t in
      let bufferTime := Z.min (Z.of_nat (List.length c) * 2) 10 in
      maxPrepTime + bufferTime
  end.

(** [item.category || 'other']. *)
Definition category_or_other (item : CartLine) : string :=
  if (category item =? "")%string then "other" else category item.

(** The own properties of the object built by the [reduce] of
    [cartItemsByCategory], lines 143-154: its keys, each with its array. *)
Definition Groups := list (string * list CartLine).

(** The names that the empty object [{}] inherits from [Object.prototype].
    For each of them [acc[name]] is truthy from the start, so the [reduce]
    creates no array, and [acc[name].push] is not a function. *)
Definition inherited_names : list string :=
  ["constructor"; "hasOwnProperty"; "isPrototypeOf"; "propertyIsEnumerable";
   "toLocaleString"; "toString"; "valueOf"; "__proto__";
   "__defineGetter__"; "__defineSetter__"; "__lookupGetter__";
   "__lookupSetter__"].

Definition is_inherited (key : string) : bool :=
  existsb (fun name => (name =? key)%string) inherited_names.

(** The step of the [reduce] for a category that is no inherited name: the
    line is pushed on the array of its category, which is created when the
    key is new. *)
Fixpoint push_group (key : string) (item : CartLine) (acc : Groups) : Groups :=
  match acc with
  | [] => [(key, [item])]
  | (k, items) :: rest =>
      if (k =? key)%string then (k, items ++ [item]) :: rest
      else (k, items) :: push_group key item rest
  end.

(** The step of the [reduce]: it throws on a category that is an inherited
    name, and what is thrown ends the [reduce]. *)
Definition group_step (acc : Settled Groups) (item : CartLine) : Settled Groups :=
  match acc with
  | Fulfilled g =>
      if is_inherited (category_or_other item)
      then Rejected "TypeError: acc[category].push is not a function"
      else Fulfilled (push_group (category_or_other item) item g)
  | Rejected message => Rejected message
  end.

(** [cartItemsByCategory]: the object, or the exception of the [reduce]. *)
Definition cartItemsByCategory (c : cart) : Settled Groups :=
  fold_left group_step c (Fulfilled []).

(** The array under the own key [key], if there is one. *)
Fixpoint group (key : string) (g : Groups) : option (list CartLine) :=
  match g with
  | [] => None
  | (k, items) :: rest => if (k =? key)%string then Some items else group key rest
  end.

(** *** checkAvailability of services/supabase, lines 580-598 of
    src/hooks/useCart.js *)

(** A row of the answer to [select('id, is_available')]. *)
Record AvailabilityRow := mkAvailabilityRow {
  row_id : string;
  row_is_available : bool
}.

(** The query [.from(...).select(...).in('id', menuItemIds)]: the rows, or
    the error of the backend. *)
Definition AvailabilityQuery := list string -> Settled (list AvailabilityRow).

Definition checkAvailability (query : AvailabilityQuery) : CheckAvailabilityFn :=
  fun menuItemIds =>
    match query menuItemIds with
    | Fulfilled data =>
        let unavailable := filter (fun item => negb (row_is_available item)) data in
        Fulfilled (mkAvailability (Z.of_nat (List.length unavailable) =? 0)
                                  (map row_id unavailable))
    | Rejected message => Rejected message
    end.

(** *** Sample data *)

Definition cola : MenuItem :=
  mkMenuItem "cola" "Cola" (QArith_base.Qmake 250 100) "drinks" None None true.

Definition two_item_cart : cart :=
  addToCart cola 3 "" "1700000000200_ccccccccc"
    (addToCart pizza 2 "" "1700000000000_k3j9x0q1z" []).

Definition cola_sold_out : AvailabilityQuery :=
  fun _ => Fulfilled [mkAvailabilityRow "pizza" true; mkAvailabilityRow "cola" false].

End CartDerived.

(* ------------------------------------------------------------------ *)
(** ** Views of the mirrors: the rest of useOrders and useMenu *)

Module Mirrors.
Import Data.

(** *** useOrders, src/hooks/useCart.js *)

(** The updater of [submitNewOrder], line 294. *)
Definition submitted (newOrder : Order) (prev : list Order) : list Order :=
  newOrder :: prev.

(** [getOrder(orderId)], lines 307-309. *)
Definition getOrder (orderId : string) (orders : list Order) : option Order :=
  find (fun order => (ord_id order =? orderId)%string) orders.

(** [getOrdersByStatus(status)], lines 312-314. *)
Definition getOrdersByStatus (status : string) (orders : list Order) : list Order :=
  filter (fun order => (ord_status order =? status)%string) orders.

(** [['delivered', 'cancelled'].includes(order.status)]. *)
Definition is_closed (order : Order) : bool :=
  existsb (fun st => (st =? ord_status order)%string) ["delivered"; "cancelled"].

(** [activeOrders], lines 340-344. *)
Definition activeOrders (orders : list Order) : list Order :=
  filter (fun order => negb (is_closed order)) orders.

(** [completedOrders], lines 347-351. *)
Definition completedOrders (orders : list Order) : list Order :=
  filter (fun order => (ord_status order =? "delivered")%string) orders.

(** [currentOrder], lines 354-356; [None] is [null]. *)
Definition currentOrder (orders : list Order) : option Order :=
  match activeOrders orders with
  | order :: _ => Some order
  | [] => None
  end.

(** *** useMenu, src/styles/mobile-fixes.css *)

(** [getMenuItem(id)], lines 265-267. *)
Definition getMenuItem (menuItemId : string) (menuItems : list MenuItem)
  : option MenuItem :=
  find (fun item => (mi_id item =? menuItemId)%string) menuItems.

(** The test of [checkItemsAvailability]: [!item || !item.is_available]. *)
Definition not_orderable (menuItems : list MenuItem) (menuItemId : string) : bool :=
  match getMenuItem menuItemId menuItems with
  | None => true
  | Some item => negb (mi_is_available item)
  end.

(** [checkItemsAvailability(itemIds)], lines 270-280. *)
Definition checkItemsAvailability (menuItems : list MenuItem)
           (itemIds : list string) : Cart.Availability :=
  let unavailableItems := filter (not_orderable menuItems) itemIds in
  Cart.mkAvailability (Z.of_nat (List.length unavailableItems) =? 0)
                      unavailableItems.

(** *** Sample data *)

Definition order_delivered : Order :=
  mkOrder "o-0" 4 (QArith_base.Qmake 900 100) "delivered" "sess-4".

Definition cola_off : MenuItem :=
  mkMenuItem "cola" "Cola" (QArith_base.Qmake 250 100) "drinks" None None false.

End Mirrors.

(* ------------------------------------------------------------------ *)
(** ** services/api.js: the retry utility and the menu cache; fetchMenuData *)

Module Api.
Import Data.

(** *** withRetry, lines 136-151 *)

(** How [withRetry] ends: it returns the value of [fn], or throws
    [lastError], which is [undefined] ([None]) when [fn] was never called. *)
Inductive RetryOutcome (A : Type) : Type :=
| Returned (value : A)
| Threw (lastError : option string).

Arguments Returned {A} value.
Arguments Threw {A} lastError.

(** One run of [withRetry]: how it ends, how often [fn] was called, and the
    delays it slept, in order. *)
Record RetryRun (A : Type) := mkRetryRun {
  outcome : RetryOutcome A;
  calls : nat;
  waits : list Z
}.

Arguments mkRetryRun {A} outcome calls waits.
Arguments outcome {A} r.
Arguments calls {A} r.
Arguments waits {A} r.

(** The [for] loop from iteration [i] on, with [remaining = maxRetries - i].
    [fn j] is how the call number [j] of [fn] settles. The loop sleeps
    [delay * Math.pow(2, i)] after a failure that is not the last. *)
Fixpoint retry_from {A : Type} (fn : nat -> Settled A) (delay : Z)
         (i remaining : nat) (lastError : option string) (slept : list Z)
  : RetryRun A :=
  match remaining with
  | O => mkRetryRun (Threw lastError) i slept
  | S r =>
      match fn i with
      | Fulfilled value => mkRetryRun (Returned value) (S i) slept
      | Rejected e =>
          retry_from fn delay (S i) r (Some e)
                     (match r with
                      | O => slept
                      | S _ => slept ++ [delay * 2 ^ Z.of_nat i]
                      end)
      end
  end.

Definition withRetry {A : Type} (fn : nat -> Settled A) (maxRetries : nat)
           (delay : Z) : RetryRun A :=
  retry_from fn delay 0 maxRetries None [].

Definition total_wait {A : Type} (r : RetryRun A) : Z :=
  fold_right Z.add 0 (waits r).

(** The delays [delay * 2^i], ..., [delay * 2^(i+n-1)]. *)
Definition backoff (delay : Z) (i n : nat) : list Z :=
  map (fun j => delay * 2 ^ Z.of_nat j) (seq i n).

(** *** SimpleCache, lines 154-182 *)

Record CacheItem (V : Type) := mkCacheItem {
  value : V;
  timestamp : Z
}.

Arguments mkCacheItem {V} value timestamp.
Arguments value {V} c.
Arguments timestamp {V} c.

(** The [Map] of the cache. *)
Definition SimpleCache (V : Type) := list (string * CacheItem V).

Fixpoint map_get {V : Type} (key : string) (m : SimpleCache V)
  : option (CacheItem V) :=
  match m with
  | [] => None
  | (k, item) :: rest => if (k =? key)%string then Some item else map_get key rest
  end.

Fixpoint map_set {V : Type} (key : string) (item : CacheItem V)
         (m : SimpleCache V) : SimpleCache V :=
  match m with
  | [] => [(key, item)]
  | (k, old) :: rest =>
      if (k =? key)%string then (k, item) :: rest
      else (k, old) :: map_set key item rest
  end.

Definition map_delete {V : Type} (key : string) (m : SimpleCache V)
  : SimpleCache V :=
  filter (fun entry => negb (fst entry =? key)%string) m.

(** [set(key, value)] at time [now]. *)
Definition cache_set {V : Type} (key : string) (v : V) (now : Z)
           (c : SimpleCache V) : SimpleCache V :=
  map_set key (mkCacheItem v now) c.

(** [get(key)] at time [now], with time to live [ttl]: the value or [null],
    and the cache afterwards (an expired entry is deleted). *)
Definition cache_get {V : Type} (ttl : Z) (key : string) (now : Z)
           (c : SimpleCache V) : option V * SimpleCache V :=
  match map_get key c with
  | None => (None, c)
  | Some item =>
      if now - timestamp item >? ttl then (None, map_delete key c)
      else (Some (value item), c)
  end.

(** [clear()]. *)
Definition cache_clear {V : Type} (c : SimpleCache V) : SimpleCache V := [].

(** [menuCache = new SimpleCache()]: the default time to live. *)
Definition menu_ttl : Z := 300000.

(** *** fetchMenuData of useMenu, lines 159-194 of src/styles/mobile-fixes.css *)

Record MenuState := mkMenuState {
  menuItems : list MenuItem;
  loading : bool;
  error : option string;
  lastFetch : option Z
}.

(** One run of [fetchMenuData]: the state and the cache afterwards, the
    value returned ([None] is [undefined]) and whether [fetchMenu] was
    called. *)
Record FetchRun := mkFetchRun {
  state_after : MenuState;
  cache_after : SimpleCache (list MenuItem);
  returned : option (list MenuItem);
  fetched : bool
}.

(** [err.message || 'Failed to load menu']. *)
Definition message_or_default (message : string) : string :=
  if (message =? "")%string then "Failed to load menu" else message.

(** [fetchMenuData(useCache)], started at time [now]; [answer] is how
    [fetchMenu()] settles and [later] the time at which it does. *)
Definition fetchMenuData (useCache : bool) (now later : Z)
           (answer : Settled (list MenuItem)) (st : MenuState)
           (cache : SimpleCache (list MenuItem)) : FetchRun :=
  let (hit, cache1) :=
      if useCache then cache_get menu_ttl "menu" now cache else (None, cache) in
  match hit with
  | Some cachedMenu =>
      mkFetchRun (mkMenuState cachedMenu false None (lastFetch st))
                 cache1 (Some cachedMenu) false
  | None =>
      match answer with
      | Fulfilled data =>
          mkFetchRun (mkMenuState data false None (Some later))
                     (cache_set "menu" data later cache1) (Some data) true
      | Rejected message =>
          let (fallback, cache2) := cache_get menu_ttl "menu" later cache1 in
          mkFetchRun
            (mkMenuState (match fallback with
                          | Some cachedMenu => cachedMenu
                          | None => menuItems st
                          end)
                         false (Some (message_or_default message)) (lastFetch st))
            cache2 None true
      end
  end.

(** [refetchMenu()], lines 197-199. *)
Definition refetchMenu := fetchMenuData false.

(** *** Sample data *)

(** A backend that fails twice and then answers. *)
Definition third_time_lucky : nat -> Settled string :=
  fun j => if (j <? 2)%nat then Rejected "503" else Fulfilled "menu".

Definition never_answers : nat -> Settled string := fun _ => Rejected "503".

Definition empty_menu_state : MenuState := mkMenuState [] true None None.

End Api.

(* ------------------------------------------------------------------ *)
(** ** Offline order queue: what one run leaves behind *)

Module OfflineQueueViews.
Import Data OfflineQueue.

(** The field [success] of an entry of [syncResults]. *)
Definition success (r : SyncResult) : bool :=
  match r with
  | Synced _ => true
  | NotSynced _ _ => false
  end.

(** The record [storage_update] writes for [data] at time [now]. *)
Definition stamped (data : PendingOrder) (now : Z) : PendingOrder :=
  mkPendingOrder (id data) (orderData data) (status data) (created_offline data)
                 (retry_count data) (last_retry data) (timestamp data) (Some now).

(** What the store holds of an order after the server's answer: nothing
    when it was accepted, the order with one more retry after a response
    without [ok], the order as it was after an exception. *)
Definition left_behind (net : Network) (now : Z) (order : PendingOrder)
  : list PendingOrder :=
  match net order with
  | PostOk _ => []
  | PostNotOk => [stamped (retried now order) now]
  | PostThrows _ => [order]
  end.

(** The entry of [syncResults] for an order. *)
Definition result_for (net : Network) (order : PendingOrder) : SyncResult :=
  match net order with
  | PostOk syncedOrder => Synced syncedOrder
  | PostNotOk => NotSynced "Server error" order
  | PostThrows message => NotSynced message order
  end.

(** The record [addPendingOrder] makes at time [now]. *)
Definition fresh_order (data stamp : string) (now : Z) : PendingOrder :=
  mkPendingOrder ("offline_" ++ stamp)%string data "pending_sync" true 0 None
                 now None.

(** *** Sample data *)

Definition network_down : Network := fun _ => PostThrows "Failed to fetch".

End OfflineQueueViews.

(* ------------------------------------------------------------------ *)
(** ** Properties of the cart *)

Module CartProps.
Import Data Cart.

Lemma removeFromCart_absent (cid : string) (c : cart) :
  (forall l, In l c -> cartId l <> cid) -> removeFromCart cid c = c.
Proof.
  intros Habs. unfold removeFromCart.
  induction c as [|l c IH]; simpl; [reflexivity|].
  destruct (String.eqb_spec (cartId l) cid) as [E|_].
  - exfalso. apply (Habs l); [left; reflexivity | exact E].
  - simpl. f_equal. apply IH. intros l' Hin. apply Habs. right. exact Hin.
Qed.

Lemma map_quantity_absent (cid : string) (n : Z) (c : cart) :
  (forall l, In l c -> cartId l <> cid) ->
  map (fun item => if (cartId item =? cid)%string
                   then set_quantity n item else item) c = c.
Proof.
  intros Habs.
  induction c as [|l c IH]; simpl; [reflexivity|].
  destruct (String.eqb_spec (cartId l) cid) as [E|_].
  - exfalso. apply (Habs l); [left; reflexivity | exact E].
  - f_equal. apply IH. intros l' Hin. apply Habs. right. exact Hin.
Qed.

(** C9. Setting a line's quantity to zero, or to any [n <= 0], gives exactly
    the cart that removing the line gives; and on a cart in which no line has
    the given [cartId], both [removeFromCart] and [updateQuantity] (for every
    quantity) return the cart unchanged. Both operations are total functions:
    there is no failing path. *)
Theorem updateQuantity_nonpositive_is_remove (c : cart) (cid : string) :
  updateQuantity cid 0 c = removeFromCart cid c /\
  (forall n : Z, n <= 0 -> updateQuantity cid n c = removeFromCart cid c) /\
  ((forall l, In l c -> cartId l <> cid) ->
   removeFromCart cid c = c /\ forall n : Z, updateQuantity cid n c = c).
Proof.
  split; [reflexivity | split].
  - intros n Hn. unfold updateQuantity.
    destruct (Z.leb_spec n 0) as [_|Hgt]; [reflexivity | lia].
  - intros Habs. split.
    + apply removeFromCart_absent. exact Habs.
    + intros n. unfold updateQuantity.
      destruct (n <=? 0).
      * apply removeFromCart_absent. exact Habs.
      * apply map_quantity_absent. exact Habs.
Qed.

Lemma updateQuantity_nonpositive_is_remove_witness :
  updateQuantity "pizza_1700000000000_k3j9x0q1z" (-1) [pizza_line] = [] /\
  removeFromCart "pizza_1700000000000_k3j9x0q1z" [pizza_line] = [] /\
  removeFromCart "nobody" [pizza_line] = [pizza_line] /\
  updateQuantity "nobody" 0 [pizza_line] = [pizza_line] /\
  updateQuantity "nobody" 7 [pizza_line] = [pizza_line].
Proof.
  destruct (updateQuantity_nonpositive_is_remove
              [pizza_line] "pizza_1700000000000_k3j9x0q1z") as (_ & Hle & _).
  destruct (updateQuantity_nonpositive_is_remove [pizza_line] "nobody")
    as (_ & _ & Habs).
  assert (Hno : forall l, In l [pizza_line] -> cartId l <> "nobody").
  { intros l [<-|[]]. vm_compute. discriminate. }
  destruct (Habs Hno) as [Hrm Hupd].
  split; [rewrite (Hle (-1)); [reflexivity | lia]|].
  split; [reflexivity|].
  split; [exact Hrm|].
  split; [exact (Hupd 0) | exact (Hupd 7)].
Defined.

(** *** addToCart *)

Lemma addToCart_cons (m : MenuItem) (q : Z) (instr sfx : string)
      (x : CartLine) (t : cart) :
  addToCart m q instr sfx (x :: t) =
  if same_line (mi_id m) instr x
  then set_quantity (quantity x + q) x :: t
  else x :: addToCart m q instr sfx t.
Proof.
  unfold addToCart. simpl.
  destruct (same_line (mi_id m) instr x); [reflexivity|].
  destruct (findIndex (same_line (mi_id m) instr) t); reflexivity.
Qed.

Lemma same_line_set_quantity (mid instr : string) (q : Z) (l : CartLine) :
  same_line mid instr (set_quantity q l) = same_line mid instr l.
Proof. reflexivity. Qed.

Lemma same_line_new_line (m : MenuItem) (q : Z) (instr sfx : string) :
  same_line (mi_id m) instr (new_line m q instr sfx) = true.
Proof.
  unfold same_line, new_line. simpl. now rewrite !String.eqb_refl.
Qed.

Lemma same_line_other_instr (mid mid' instr instr' : string) (l : CartLine) :
  instr' <> instr -> same_line mid' instr' l = true ->
  same_line mid instr l = false.
Proof.
  unfold same_line. intros Hne H.
  apply andb_true_iff in H. destruct H as [_ H].
  apply String.eqb_eq in H. rewrite H.
  apply andb_false_iff. right. apply String.eqb_neq. exact Hne.
Qed.

(** The lines of the pair after one [addToCart] for that pair: the first of
    them has grown, or, when there was none, the new line is the only one. *)
Lemma lines_for_addToCart (m : MenuItem) (q : Z) (instr sfx : string) (c : cart) :
  lines_for (mi_id m) instr (addToCart m q instr sfx c) =
  match lines_for (mi_id m) instr c with
  | [] => [new_line m q instr sfx]
  | l :: rest => set_quantity (quantity l + q) l :: rest
  end.
Proof.
  unfold lines_for.
  induction c as [|x t IH].
  - unfold addToCart. simpl. now rewrite same_line_new_line.
  - rewrite addToCart_cons. simpl.
    destruct (same_line (mi_id m) instr x) eqn:E; simpl.
    + rewrite same_line_set_quantity, E. reflexivity.
    + rewrite E. exact IH.
Qed.

(** An [addToCart] with other instructions does not touch the pair's lines. *)
Lemma lines_for_addToCart_other (m : MenuItem) (q : Z) (mid instr instr' sfx : string)
      (c : cart) :
  instr' <> instr ->
  lines_for mid instr (addToCart m q instr' sfx c) = lines_for mid instr c.
Proof.
  intros Hne. unfold lines_for.
  induction c as [|x t IH].
  - unfold addToCart. simpl.
    rewrite (same_line_other_instr mid (mi_id m) instr instr'); auto.
    apply same_line_new_line.
  - rewrite addToCart_cons.
    destruct (same_line (mi_id m) instr' x) eqn:E; simpl.
    + rewrite same_line_set_quantity.
      rewrite (same_line_other_instr mid (mi_id m) instr instr' x Hne E).
      reflexivity.
    + rewrite IH. reflexivity.
Qed.

Lemma addToCart_has_line (m : MenuItem) (q : Z) (instr sfx : string) (c : cart) :
  exists l, In l (addToCart m q instr sfx c) /\
            same_line (mi_id m) instr l = true.
Proof.
  assert (H : lines_for (mi_id m) instr (addToCart m q instr sfx c) <> []).
  { rewrite lines_for_addToCart. destruct (lines_for _ _ c); discriminate. }
  destruct (lines_for (mi_id m) instr (addToCart m q instr sfx c))
    as [|l r] eqn:E; [congruence|].
  exists l. apply (filter_In (same_line (mi_id m) instr)).
  unfold lines_for in E. rewrite E. left. reflexivity.
Qed.

Lemma lines_for_addAll (mid instr : string) (calls : list AddCall) (c : cart) :
  (forall k, In k calls -> mi_id (call_item k) = mid) ->
  lines_for mid instr (addAll instr calls c) =
  match lines_for mid instr c, calls with
  | [], [] => []
  | [], k :: ks =>
      [set_quantity (sum_added calls)
                    (new_line (call_item k) (call_quantity k) instr (call_suffix k))]
  | l :: rest, _ => set_quantity (quantity l + sum_added calls) l :: rest
  end.
Proof.
  revert c. induction calls as [|k ks IH]; intros c Hid.
  - simpl. destruct (lines_for mid instr c) as [|l rest]; [reflexivity|].
    destruct l; unfold set_quantity; simpl. now rewrite Z.add_0_r.
  - assert (Hk : mi_id (call_item k) = mid) by (apply Hid; left; reflexivity).
    assert (Hks : forall k', In k' ks -> mi_id (call_item k') = mid)
      by (intros k' Hin; apply Hid; right; exact Hin).
    change (addAll instr (k :: ks) c) with
      (addAll instr ks
              (addToCart (call_item k) (call_quantity k) instr (call_suffix k) c)).
    rewrite (IH _ Hks). subst mid.
    rewrite lines_for_addToCart.
    destruct (lines_for (mi_id (call_item k)) instr c) as [|l rest]; simpl.
    + unfold set_quantity, new_line. simpl. reflexivity.
    + unfold set_quantity. simpl. f_equal. f_equal. lia.
Qed.

(** C4 (amended). On a cart that holds at most one line for the pair
    [(menuItemId, specialInstructions)], every sequence of [addToCart] calls
    for that pair that is non-empty, or starts from a cart that has the line,
    leaves exactly one line for the pair, and its quantity is the initial one
    (0 if absent) plus the sum of the quantities added. A call with other
    instructions leaves the pair's lines as they are and works on a line that
    is not the pair's. *)
Theorem addToCart_same_pair_single_line
        (mid instr : string) (calls : list AddCall) (c : cart) :
  (forall k, In k calls -> mi_id (call_item k) = mid) ->
  (List.length (lines_for mid instr c) <= 1)%nat ->
  calls <> [] \/ lines_for mid instr c <> [] ->
  (exists line,
      lines_for mid instr (addAll instr calls c) = [line] /\
      quantity line = sum_quantity (lines_for mid instr c) + sum_added calls) /\
  (forall (m : MenuItem) (q : Z) (instr' sfx : string),
      instr' <> instr ->
      lines_for mid instr (addToCart m q instr' sfx (addAll instr calls c)) =
      lines_for mid instr (addAll instr calls c) /\
      exists other,
        In other (addToCart m q instr' sfx (addAll instr calls c)) /\
        same_line (mi_id m) instr' other = true /\
        same_line mid instr other = false).
Proof.
  intros Hid Hone Hsome. split.
  - rewrite (lines_for_addAll mid instr calls c Hid).
    destruct (lines_for mid instr c) as [|l [|l' rest]] eqn:E.
    + destruct calls as [|k ks]; [destruct Hsome; congruence|].
      eexists. split; [reflexivity|]. simpl. lia.
    + eexists. split; [reflexivity|]. simpl. lia.
    + simpl in Hone. lia.
  - intros m q instr' sfx Hne. split.
    + apply lines_for_addToCart_other. exact Hne.
    + destruct (addToCart_has_line m q instr' sfx (addAll instr calls c))
        as (other & Hin & Hsame).
      exists other. split; [exact Hin|]. split; [exact Hsame|].
      apply (same_line_other_instr mid (mi_id m) instr instr' other Hne Hsame).
Qed.

Lemma addToCart_same_pair_single_line_witness :
  exists line,
    lines_for "pizza" ""
      (addAll "" [mkAddCall pizza 1 "1700000000500_aaaaaaaaa"] [pizza_line])
    = [line] /\ quantity line = 3.
Proof.
  destruct (addToCart_same_pair_single_line "pizza" ""
              [mkAddCall pizza 1 "1700000000500_aaaaaaaaa"] [pizza_line])
    as [(line & Hl & Hq) _].
  - intros k [<-|[]]. reflexivity.
  - vm_compute. lia.
  - left. discriminate.
  - exists line. split; [exact Hl|]. rewrite Hq. reflexivity.
Defined.

(** C4 as stated fails: from [twin_cart], one more [addToCart] for the pair
    leaves two lines for it, with quantities 3 and 1. (And the empty sequence
    of calls on the empty cart leaves no line at all.) *)
Lemma addToCart_same_pair_counterexample :
  lines_for "pizza" "" (addAll "" [] []) = [] /\
  map quantity
      (lines_for "pizza" ""
         (addAll "" [mkAddCall pizza 1 "1700000000500_aaaaaaaaa"] twin_cart))
  = [3; 1] /\
  ~ (exists line,
        lines_for "pizza" ""
          (addAll "" [mkAddCall pizza 1 "1700000000500_aaaaaaaaa"] twin_cart)
        = [line]).
Proof.
  split; [reflexivity|]. split; [reflexivity|].
  intros [line H]. apply (f_equal (@List.length CartLine)) in H.
  vm_compute in H. discriminate.
Qed.

(** *** validateCart *)

(** C10. On the empty cart [validateCart] resolves to
    [{ valid: true, unavailableItems: [] }], whatever capability it is handed;
    the capability is not called, the loading flag is not touched, and the
    cart is still empty. *)
Theorem validateCart_empty (checkAvailabilityFn : CheckAvailabilityFn) :
  result (validateCart checkAvailabilityFn []) = mkValidation true (Some []) None /\
  check_calls (validateCart checkAvailabilityFn []) = [] /\
  loading_writes (validateCart checkAvailabilityFn []) = [] /\
  cart_after (validateCart checkAvailabilityFn []) = [].
Proof. repeat split. Qed.

(** On a cart with a line the capability is called, once, with the distinct
    menu item ids: the log of calls is not trivially empty. *)
Lemma validateCart_nonempty_calls (checkAvailabilityFn : CheckAvailabilityFn)
      (l : CartLine) (c : cart) :
  check_calls (validateCart checkAvailabilityFn (l :: c)) =
  [distinct [] (map id (l :: c))].
Proof.
  unfold validateCart.
  destruct (checkAvailabilityFn _) as [a|msg]; [|reflexivity].
  destruct (negb (allAvailable a)); reflexivity.
Qed.

End CartProps.

(* ------------------------------------------------------------------ *)
(** ** Properties of the realtime handlers *)

Module ReconcilerProps.
Import Data Reconciler.

Section Updaters.
Context {R : Type}.
Variable key : R -> string.

Lemma replace_twice (new : R) (prev : list R) :
  let f := fun item => if (key item =? key new)%string then new else item in
  map f (map f prev) = map f prev.
Proof.
  intros f. rewrite map_map. apply map_ext. intros item. unfold f.
  destruct (key item =? key new)%string eqn:E.
  - now rewrite String.eqb_refl.
  - now rewrite E.
Qed.

Lemma remove_twice (p : R -> bool) (prev : list R) :
  filter p (filter p prev) = filter p prev.
Proof.
  induction prev as [|x t IH]; simpl; [reflexivity|].
  destruct (p x) eqn:E; simpl; [rewrite E, IH|]; auto.
Qed.

Lemma replace_absent (new : R) (prev : list R) :
  (forall item, In item prev -> key item <> key new) ->
  map (fun item => if (key item =? key new)%string then new else item) prev
  = prev.
Proof.
  intros Habs. induction prev as [|x t IH]; simpl; [reflexivity|].
  destruct (String.eqb_spec (key x) (key new)) as [E|_].
  - exfalso. apply (Habs x); [left; reflexivity | exact E].
  - f_equal. apply IH. intros item Hin. apply Habs. right. exact Hin.
Qed.
End Updaters.

Lemma orders_insert_twice (new : Order) (prev : list Order) :
  orders_onChange (INSERT new) (orders_onChange (INSERT new) prev) =
  orders_onChange (INSERT new) prev.
Proof.
  simpl.
  destruct (existsb (fun order => (ord_id order =? ord_id new)%string) prev) eqn:E;
    simpl.
  - now rewrite E.
  - now rewrite String.eqb_refl.
Qed.

(** C2 (amended). On the orders mirror every insert, update or delete event
    applied twice in succession gives the state that applying it once gives;
    on the menu mirror the same holds for update and delete events (events of
    an unknown type go to a refetch and are not covered). An insert
    into the orders mirror for an id that is already present leaves the
    collection as it is: no second entry, and the entry that was there is not
    replaced. *)
Theorem change_event_twice_is_once :
  (forall (e : Payload Order) (prev : list Order),
      refetches e = false ->
      orders_onChange e (orders_onChange e prev) = orders_onChange e prev) /\
  (forall (e : Payload MenuItem) (prev : list MenuItem),
      refetches e = false -> is_insert e = false ->
      menu_onChange e (menu_onChange e prev) = menu_onChange e prev) /\
  (forall (new : Order) (prev : list Order),
      (exists order, In order prev /\ ord_id order = ord_id new) ->
      orders_onChange (INSERT new) prev = prev).
Proof.
  split; [|split].
  - intros [new|new|old|ty] prev Hknown; try discriminate.
    + apply orders_insert_twice.
    + apply (replace_twice ord_id).
    + apply remove_twice.
  - intros [new|new|old|ty] prev Hknown Hins; try discriminate.
    + apply (replace_twice mi_id).
    + apply remove_twice.
  - intros new prev (order & Hin & Hid). simpl.
    assert (E : existsb (fun o => (ord_id o =? ord_id new)%string) prev = true).
    { apply existsb_exists. exists order. split; [exact Hin|].
      now apply String.eqb_eq. }
    now rewrite E.
Qed.

Lemma change_event_twice_is_once_witness :
  orders_onChange (INSERT order_pending) (orders_onChange (INSERT order_pending) []) =
  [order_pending] /\
  menu_onChange (DELETE tiramisu) (menu_onChange (DELETE tiramisu) [tiramisu]) =
  menu_onChange (DELETE tiramisu) [tiramisu] /\
  orders_onChange (INSERT order_confirmed) [order_pending] = [order_pending].
Proof.
  destruct change_event_twice_is_once as (Hord & Hmenu & Hdup). split; [|split].
  - rewrite Hord; reflexivity.
  - apply Hmenu; reflexivity.
  - apply Hdup. exists order_pending. split; [left|]; reflexivity.
Defined.

(** C2 as stated fails twice over. A menu insert delivered twice leaves two
    entries with the same id where one delivery leaves one; and an orders
    insert for an id already present does not act as an update: the stored
    row keeps its old status. *)
Lemma change_event_twice_counterexample :
  menu_onChange (INSERT tiramisu) (menu_onChange (INSERT tiramisu) []) =
    [tiramisu; tiramisu] /\
  menu_onChange (INSERT tiramisu) (menu_onChange (INSERT tiramisu) []) <>
    menu_onChange (INSERT tiramisu) [] /\
  orders_onChange (INSERT order_confirmed) [order_pending] <>
    orders_onChange (UPDATE order_confirmed) [order_pending].
Proof.
  split; [reflexivity|]. split; vm_compute; discriminate.
Qed.

(** C7 (amended). An update event whose record id is absent from the mirror
    is dropped: both handlers return the collection unchanged, so no entity
    with that id is present afterwards. *)
Theorem update_of_absent_id_is_dropped :
  (forall (new : MenuItem) (prev : list MenuItem),
      (forall item, In item prev -> mi_id item <> mi_id new) ->
      menu_onChange (UPDATE new) prev = prev /\
      forall item, In item (menu_onChange (UPDATE new) prev) ->
                   mi_id item <> mi_id new) /\
  (forall (new : Order) (prev : list Order),
      (forall order, In order prev -> ord_id order <> ord_id new) ->
      orders_onChange (UPDATE new) prev = prev /\
      forall order, In order (orders_onChange (UPDATE new) prev) ->
                    ord_id order <> ord_id new).
Proof.
  split.
  - intros new prev Habs.
    assert (E : menu_onChange (UPDATE new) prev = prev)
      by (apply (replace_absent mi_id); exact Habs).
    split; [exact E | rewrite E; exact Habs].
  - intros new prev Habs.
    assert (E : orders_onChange (UPDATE new) prev = prev)
      by (apply (replace_absent ord_id); exact Habs).
    split; [exact E | rewrite E; exact Habs].
Qed.

Lemma update_of_absent_id_is_dropped_witness :
  menu_onChange (UPDATE tiramisu) [] = [] /\
  orders_onChange (UPDATE (mkOrder "o-2" 4 (QArith_base.Qmake 100 100)
                                   "ready" "sess-4")) [order_pending]
  = [order_pending].
Proof.
  destruct update_of_absent_id_is_dropped as [Hmenu Hord]. split.
  - apply Hmenu. intros item [].
  - apply Hord. intros order [<-|[]]. vm_compute. discriminate.
Defined.

(** C7 as stated fails: after an update for an id the mirror does not hold,
    neither mirror holds an entity with that id. *)
Lemma update_of_absent_id_counterexample :
  ~ (exists item, In item (menu_onChange (UPDATE tiramisu) []) /\
                  mi_id item = mi_id tiramisu) /\
  ~ (exists order, In order (orders_onChange (UPDATE order_confirmed) []) /\
                   ord_id order = ord_id order_confirmed).
Proof.
  split; intros (x & Hin & _); exact Hin.
Qed.

End ReconcilerProps.

(* ------------------------------------------------------------------ *)
(** ** Properties of the offline order queue *)

Module OfflineQueueProps.
Import Data OfflineQueue.

(** *** The store operations *)

Lemma In_replace_key (x r : PendingOrder) (db : object_store) :
  In x (replace_key r db) -> x = r \/ In x db.
Proof.
  induction db as [|y t IH]; simpl; [tauto|].
  destruct (id y =? id r)%string; simpl.
  - intros [<-|H]; [now left | right; now right].
  - intros [<-|H]; [right; now left|].
    destruct (IH H) as [->|H']; [now left | right; now right].
Qed.

Lemma In_insert_by_key (x r : PendingOrder) (db : object_store) :
  In x (insert_by_key r db) <-> x = r \/ In x db.
Proof.
  induction db as [|y t IH]; simpl; [intuition|].
  destruct (String.ltb (id r) (id y)); simpl; [intuition|].
  rewrite IH. intuition.
Qed.

Lemma In_put (x r : PendingOrder) (db : object_store) :
  In x (put r db) -> x = r \/ In x db.
Proof.
  unfold put. destruct (has_key (id r) db).
  - apply In_replace_key.
  - apply In_insert_by_key.
Qed.

Lemma In_storage_delete (x : PendingOrder) (key : string) (db : object_store) :
  In x (storage_delete key db) -> In x db /\ id x <> key.
Proof.
  unfold storage_delete. intros H. apply filter_In in H. destruct H as [Hin Hk].
  split; [exact Hin|]. apply negb_true_iff in Hk. now apply String.eqb_neq.
Qed.

Lemma key_of_settled (k : string) (outcome : PostOutcome) (now : Z)
      (order : PendingOrder) (db : object_store) :
  In k (map id (fst (settle outcome now order db))) ->
  In k (map id db) \/ k = id order.
Proof.
  intros H. apply in_map_iff in H. destruct H as (x & <- & Hx).
  destruct outcome as [synced| |message]; simpl in Hx.
  - apply In_storage_delete in Hx. left. apply in_map. tauto.
  - apply In_put in Hx. destruct Hx as [->|Hx]; [now right | left; now apply in_map].
  - left. now apply in_map.
Qed.

(** *** The loop *)

Lemma sync_loop_cons (net : Network) (now : Z) (order : PendingOrder)
      (rest : list PendingOrder) (acc : Run) :
  sync_loop net now (order :: rest) acc =
  sync_loop net now rest
    (mkRun (fst (settle (net order) now order (db_after acc)))
           (syncResults acc ++ [snd (settle (net order) now order (db_after acc))])
           (posted acc ++ [order])).
Proof.
  simpl. destruct (settle (net order) now order (db_after acc)). reflexivity.
Qed.

Lemma posted_sync_loop (net : Network) (now : Z) (todo : list PendingOrder)
      (acc : Run) :
  posted (sync_loop net now todo acc) = posted acc ++ todo.
Proof.
  revert acc. induction todo as [|order rest IH]; intros acc.
  - simpl. now rewrite app_nil_r.
  - rewrite sync_loop_cons, IH. simpl. now rewrite <- app_assoc.
Qed.

(** The loop only ever puts back records of the orders it walks over. *)
Lemma key_after_sync_loop (net : Network) (now : Z) (k : string)
      (todo : list PendingOrder) (acc : Run) :
  In k (map id (db_after (sync_loop net now todo acc))) ->
  In k (map id (db_after acc)) \/ In k (map id todo).
Proof.
  revert acc. induction todo as [|order rest IH]; intros acc H.
  - now left.
  - rewrite sync_loop_cons in H. apply IH in H. simpl in H.
    destruct H as [H|H]; [|right; now right].
    apply key_of_settled in H. destruct H as [H| ->]; [now left | right; now left].
Qed.

Lemma delivered_key_gone (net : Network) (now : Z) (todo : list PendingOrder)
      (acc : Run) (o : PendingOrder) (synced : Order) :
  NoDup (map id todo) -> In o todo -> net o = PostOk synced ->
  ~ In (id o) (map id (db_after (sync_loop net now todo acc))).
Proof.
  revert acc. induction todo as [|order rest IH]; intros acc Hnd Hin Hok.
  - destruct Hin.
  - simpl in Hnd. apply NoDup_cons_iff in Hnd. destruct Hnd as [Hfresh Hnd].
    rewrite sync_loop_cons.
    destruct Hin as [->|Hin]; [|now apply IH].
    intros H. apply key_after_sync_loop in H. simpl in H.
    destruct H as [H|H]; [|contradiction].
    rewrite Hok in H. simpl in H.
    apply in_map_iff in H. destruct H as (x & Hx & Hin).
    apply In_storage_delete in Hin. tauto.
Qed.

(** Whatever the loop leaves in the store carries the id and the status of a
    record that was there before, or of an order it walked over. *)
Lemma status_after_sync_loop (net : Network) (now : Z) (todo : list PendingOrder)
      (acc : Run) (x : PendingOrder) :
  In x (db_after (sync_loop net now todo acc)) ->
  exists o, (In o (db_after acc) \/ In o todo) /\
            id o = id x /\ status o = status x.
Proof.
  revert acc. induction todo as [|order rest IH]; intros acc H.
  - exists x. auto.
  - rewrite sync_loop_cons in H. apply IH in H.
    destruct H as (o & [Ho|Ho] & Hid & Hst); [|exists o; simpl; auto].
    simpl in Ho. destruct (net order) as [synced| |message]; simpl in Ho.
    + apply In_storage_delete in Ho. exists o. tauto.
    + apply In_put in Ho. destruct Ho as [->|Ho].
      * exists order. simpl in *. auto.
      * exists o. auto.
    + exists o. auto.
Qed.

Lemma retryFailedOrders_none_eligible (net : Network) (now : Z)
      (db : object_store) :
  (forall o, In o db -> eligible now o = false) ->
  retryFailedOrders net now db = mkRun db [] [].
Proof.
  intros Hno. unfold retryFailedOrders, getPendingOrders.
  assert (E : filter (eligible now) db = []).
  { induction db as [|o t IH]; simpl; [reflexivity|].
    rewrite (Hno o (or_introl eq_refl)). apply IH.
    intros o' Hin. apply Hno. now right. }
  now rewrite E.
Qed.

(** C1 (amended). The queue has no failed state: whatever a run of
    [syncPendingOrders] leaves in the store has the status it had before, so
    an order queued as ['pending_sync'] stays so however often it was retried.
    [syncPendingOrders] posts every stored order, whatever its [retry_count].
    [retryFailedOrders] makes no delivery attempt and leaves the store as it
    is when every stored order has reached [retry_count] 3. *)
Theorem capped_orders_are_left_alone (net : Network) (now : Z) (db : object_store) :
  ((forall o, In o db -> 3 <= retry_count o) ->
   retryFailedOrders net now db = mkRun db [] []) /\
  posted (syncPendingOrders net now db) = db /\
  (forall x, In x (db_after (syncPendingOrders net now db)) ->
             exists o, In o db /\ id o = id x /\ status o = status x).
Proof.
  split; [|split].
  - intros Hcap. apply retryFailedOrders_none_eligible.
    intros o Hin. unfold eligible.
    destruct (Z.ltb_spec (retry_count o) 3) as [Hlt|_]; [|reflexivity].
    specialize (Hcap o Hin). lia.
  - unfold syncPendingOrders. now rewrite posted_sync_loop.
  - intros x Hx. unfold syncPendingOrders, getPendingOrders in Hx.
    apply status_after_sync_loop in Hx. simpl in Hx.
    destruct Hx as (o & Ho & Hid & Hst). exists o. tauto.
Qed.

Lemma capped_orders_are_left_alone_witness :
  retryFailedOrders always_ok 50000 after_three_failures =
  mkRun after_three_failures [] [].
Proof.
  apply (capped_orders_are_left_alone always_ok 50000 after_three_failures).
  intros o [<-|[]]. vm_compute. discriminate.
Defined.

(** C1 as stated fails. The order that met three 500 responses has
    [retry_count] 3 and still the status ['pending_sync']; a further
    [syncPendingOrders] posts it again, and a further failure takes its
    [retry_count] to 4. [retryFailedOrders] posts it as well as soon as the
    store holds one other order that is due. *)
Lemma capped_order_counterexample :
  map retry_count after_three_failures = [3] /\
  map status after_three_failures = ["pending_sync"] /\
  posted (syncPendingOrders always_ok 50000 after_three_failures) =
    after_three_failures /\
  map retry_count
      (db_after (syncPendingOrders always_500 50000 after_three_failures)) = [4] /\
  posted (retryFailedOrders always_ok 50000
            (after_three_failures ++ [queued "49000_zyxwvutsr"])) =
    after_three_failures ++ [queued "49000_zyxwvutsr"].
Proof. repeat split. Qed.

(** C8 (amended). The delay of [retryFailedOrders] is a fixed 30 000 ms, the
    same for every retry count, and it counts from [last_retry], the stamp
    that a run writes when the server answers without [ok]; a post that
    throws writes no stamp. An order below the cap with [last_retry = t] is
    due exactly when more than 30 000 ms have passed since [t], and an order
    below the cap without a stamp is due at any time. When no stored order
    is due no delivery is attempted; so a lone order whose [last_retry] is at
    most 30 000 ms old is not attempted, and a lone due order is. *)
Theorem retry_delay_is_fixed (net : Network) (now : Z) :
  (forall db : object_store,
      (forall o, In o db -> eligible now o = false) ->
      retryFailedOrders net now db = mkRun db [] []) /\
  (forall (o : PendingOrder) (t : Z),
      last_retry o = Some t -> t <> 0 -> retry_count o < 3 ->
      (eligible now o = true <-> 30000 < now - t) /\
      (now - t <= 30000 -> posted (retryFailedOrders net now [o]) = []) /\
      (30000 < now - t -> posted (retryFailedOrders net now [o]) = [o])) /\
  (forall o : PendingOrder,
      never_retried o = true -> retry_count o < 3 ->
      eligible now o = true /\
      posted (retryFailedOrders net now [o]) = [o]) /\
  (forall (o : PendingOrder) (message : string),
      net o = PostThrows message ->
      db_after (retryFailedOrders net now [o]) = [o]) /\
  (forall o : PendingOrder,
      net o = PostNotOk -> eligible now o = true ->
      map last_retry (db_after (retryFailedOrders net now [o])) = [Some now] /\
      map retry_count (db_after (retryFailedOrders net now [o])) =
        [retry_count o + 1]).
Proof.
  assert (Hlone : forall o, eligible now o = true ->
            retryFailedOrders net now [o] = syncPendingOrders net now [o]).
  { intros o Hel. unfold retryFailedOrders, getPendingOrders. simpl.
    now rewrite Hel. }
  split; [intros db; apply retryFailedOrders_none_eligible|].
  split; [|split; [|split]].
  - intros o t Hlast Ht Hcount.
    assert (Hel : eligible now o = (now - t >? 30000)).
    { unfold eligible, never_retried. rewrite Hlast.
      destruct (Z.ltb_spec (retry_count o) 3) as [_|Hge]; [|lia].
      destruct (Z.eqb_spec t 0) as [E|_]; [contradiction|]. reflexivity. }
    split; [|split].
    + rewrite Hel, Z.gtb_ltb. apply Z.ltb_lt.
    + intros Hrecent. rewrite retryFailedOrders_none_eligible; [reflexivity|].
      intros o' [<-|[]]. rewrite Hel, Z.gtb_ltb. apply Z.ltb_ge. exact Hrecent.
    + intros Hdue. rewrite Hlone.
      * unfold syncPendingOrders. now rewrite posted_sync_loop.
      * rewrite Hel, Z.gtb_ltb. now apply Z.ltb_lt.
  - intros o Hnever Hcount.
    assert (Hel : eligible now o = true).
    { unfold eligible. rewrite Hnever.
      destruct (Z.ltb_spec (retry_count o) 3); [reflexivity | lia]. }
    split; [exact Hel|]. rewrite (Hlone o Hel).
    unfold syncPendingOrders. now rewrite posted_sync_loop.
  - intros o message Hthrows.
    destruct (eligible now o) eqn:Hel.
    + rewrite (Hlone o Hel). unfold syncPendingOrders, getPendingOrders.
      simpl. now rewrite Hthrows.
    + rewrite retryFailedOrders_none_eligible; [reflexivity|].
      now intros o' [<-|[]].
  - intros o Hnot Hel. rewrite (Hlone o Hel).
    unfold syncPendingOrders, getPendingOrders. simpl. rewrite Hnot. simpl.
    unfold storage_update, put, has_key. simpl. rewrite String.eqb_refl. simpl.
    split; reflexivity.
Qed.

Lemma retry_delay_is_fixed_witness :
  posted (retryFailedOrders always_ok 33000 after_two_failures) = [] /\
  posted (retryFailedOrders always_ok 33001 after_two_failures) =
    after_two_failures /\
  posted (retryFailedOrders no_network 5001
            (db_after (retryFailedOrders no_network 5000 [order_a]))) = [order_a] /\
  map last_retry (db_after (retryFailedOrders always_500 5000 [order_a])) =
    [Some 5000].
Proof.
  destruct (retry_delay_is_fixed always_ok 33000) as (_ & Hrecent & _).
  destruct (retry_delay_is_fixed always_ok 33001) as (_ & Hdue & _).
  destruct (retry_delay_is_fixed no_network 5000) as (_ & _ & _ & Hthrows & _).
  destruct (retry_delay_is_fixed no_network 5001) as (_ & _ & Hnever & _).
  destruct (retry_delay_is_fixed always_500 5000) as (_ & _ & _ & _ & Hstamp).
  split; [|split; [|split]].
  - apply (Hrecent (hd (queued "") after_two_failures) 3000);
      [reflexivity | lia | vm_compute; reflexivity | lia].
  - apply (Hdue (hd (queued "") after_two_failures) 3000);
      [reflexivity | lia | vm_compute; reflexivity | lia].
  - rewrite (Hthrows order_a "Failed to fetch" eq_refl).
    apply (Hnever order_a); [reflexivity | vm_compute; reflexivity].
  - apply (Hstamp order_a); reflexivity.
Defined.

(** C8 as stated fails. The order that failed twice, last at 3000, has
    [retry_count] 2; [retryFailedOrders] posts it at 33001, when 30 001 ms
    have passed and not the 120 000 ms of a delay doubling from 30 000 ms.
    The threshold is the same for every retry count. And an order retried
    one second ago is posted all the same once another order is due. *)
Lemma retry_delay_counterexample :
  map retry_count after_two_failures = [2] /\
  map last_retry after_two_failures = [Some 3000] /\
  posted (retryFailedOrders always_ok 33001 after_two_failures) =
    after_two_failures /\
  33001 - 3000 < 30000 * 2 ^ 2 /\
  map retry_count (after_failures [3000]) = [1] /\
  map (eligible 33001) (after_failures [3000]) = [true] /\
  map (eligible 33001) after_two_failures = [true] /\
  map (eligible 33000) (after_failures [3000]) = [false] /\
  map (eligible 33000) after_two_failures = [false] /\
  posted (retryFailedOrders always_ok 4000
            (after_two_failures ++ [queued "3900_zyxwvutsr"])) =
    after_two_failures ++ [queued "3900_zyxwvutsr"].
Proof. repeat split. Qed.

(** *** Invocations that overlap *)

Lemma run_cons (net : nat -> Network) (now : Z) (a : Action)
      (rest : list (Z * Action)) (w : World) :
  run net ((now, a) :: rest) w = run net rest (step net now a w).
Proof. reflexivity. Qed.

Lemma run_app (net : nat -> Network) (s1 s2 : list (Z * Action)) (w : World) :
  run net (s1 ++ s2) w = run net s2 (run net s1 w).
Proof. unfold run. apply fold_left_app. Qed.

Lemma nth_error_set_task (who j : nat) (x t : Task) (ts : list Task) :
  nth_error (set_task who x ts) j = Some t ->
  (j = who /\ t = x) \/ (j <> who /\ nth_error ts j = Some t).
Proof.
  revert who j. induction ts as [|y ys IH]; intros who j H.
  - destruct who, j; discriminate.
  - destruct who as [|who], j as [|j]; simpl in H.
    + inversion H. now left.
    + right. split; [discriminate | exact H].
    + right. split; [discriminate | exact H].
    + destruct (IH who j H) as [[-> ->]|[Hne E]]; [now left|].
      right. split; [congruence | exact E].
Qed.

Lemma Forall_set_task (P : Task -> Prop) (who : nat) (x : Task) (ts : list Task) :
  Forall P ts -> P x -> Forall P (set_task who x ts).
Proof.
  intros Hts Hx. revert who. induction Hts as [|y ys Hy Hys IH]; intros who.
  - destruct who; constructor.
  - destruct who; simpl; constructor; auto.
Qed.

Lemma Forall_nth_error (P : Task -> Prop) (who : nat) (t : Task) (ts : list Task) :
  Forall P ts -> nth_error ts who = Some t -> P t.
Proof.
  intros Hts E. apply nth_error_In in E. revert t E. now apply Forall_forall.
Qed.

Lemma has_key_In (key : string) (db : object_store) :
  has_key key db = true <-> In key (map id db).
Proof.
  unfold has_key. rewrite existsb_exists, in_map_iff. split.
  - intros (x & Hx & E). apply String.eqb_eq in E. eauto.
  - intros (x & E & Hx). exists x. split; [exact Hx | now apply String.eqb_eq].
Qed.

Lemma keys_replace_key (r : PendingOrder) (db : object_store) :
  map id (replace_key r db) = map id db.
Proof.
  induction db as [|y t IH]; simpl; [reflexivity|].
  destruct (String.eqb_spec (id y) (id r)) as [E|_]; simpl; congruence.
Qed.

Lemma distinct_keys_insert (r : PendingOrder) (db : object_store) :
  ~ In (id r) (map id db) -> NoDup (map id db) ->
  NoDup (map id (insert_by_key r db)).
Proof.
  induction db as [|y t IH]; simpl; intros Hfresh Hnd.
  - constructor; [intros [] | constructor].
  - destruct (String.ltb (id r) (id y)); simpl.
    + constructor; [exact Hfresh | exact Hnd].
    + apply NoDup_cons_iff in Hnd. destruct Hnd as [Hy Hnd].
      constructor; [|apply IH; tauto].
      intros Hin. apply in_map_iff in Hin. destruct Hin as (x & E & Hx).
      apply In_insert_by_key in Hx. destruct Hx as [->|Hx].
      * apply Hfresh. left. now symmetry.
      * apply Hy. rewrite <- E. now apply in_map.
Qed.

Lemma distinct_keys_settle (outcome : PostOutcome) (now : Z)
      (order : PendingOrder) (db : object_store) :
  NoDup (map id db) -> NoDup (map id (fst (settle outcome now order db))).
Proof.
  intros Hnd. destruct outcome as [synced| |message]; simpl; [| |exact Hnd].
  - unfold storage_delete. generalize (id order) as key. intros key.
    induction db as [|y t IH]; simpl; [constructor|].
    simpl in Hnd. apply NoDup_cons_iff in Hnd. destruct Hnd as [Hy Hnd].
    destruct (negb _); [|now apply IH]. simpl. constructor; [|now apply IH].
    intros Hin. apply Hy. apply in_map_iff in Hin. destruct Hin as (x & E & Hx).
    apply filter_In in Hx. rewrite <- E. apply in_map. tauto.
  - unfold storage_update, put.
    destruct (has_key _ db) eqn:E.
    + now rewrite keys_replace_key.
    + apply distinct_keys_insert; [|exact Hnd].
      intros Hin. apply has_key_In in Hin. congruence.
Qed.

(** The store keeps one record per id, and so does every snapshot. *)
Lemma one_record_per_id_step (net : nat -> Network) (now : Z) (a : Action)
      (w : World) :
  one_record_per_id w -> one_record_per_id (step net now a w).
Proof.
  intros [Hstore Htasks]. destruct a as [|who|data]; simpl;
    [| |unfold storage_add; destruct (has_key (id data) (store w)) eqn:Hkey;
        [now split | split; [|exact Htasks]; simpl;
         apply distinct_keys_insert; [|exact Hstore];
         simpl; intros Hin; apply has_key_In in Hin; congruence]].
  - split; [exact Hstore|]. apply Forall_app. split; [exact Htasks|].
    constructor; [exact I | constructor].
  - unfold resume. destruct (nth_error (tasks w) who) as [t|] eqn:E; [|now split].
    pose proof (Forall_nth_error _ _ _ _ Htasks E) as Ht.
    destruct t as [|todo results|order todo results
                   |order outcome answered_at todo results|results].
    + split; [exact Hstore|]. apply Forall_set_task; [exact Htasks | exact Hstore].
    + destruct todo as [|order rest].
      * split; [exact Hstore|]. now apply Forall_set_task.
      * split; [exact Hstore|]. now apply Forall_set_task.
    + split; [exact Hstore|]. now apply Forall_set_task.
    + pose proof (distinct_keys_settle outcome answered_at order (store w) Hstore)
        as Hstore'.
      destruct (settle outcome answered_at order (store w)) as [db' r].
      split; [exact Hstore'|]. apply Forall_set_task; [exact Htasks|].
      simpl in Ht |- *. now apply NoDup_cons_iff in Ht.
    + now split.
Qed.

Lemma one_record_per_id_run (net : nat -> Network)
      (schedule : list (Z * Action)) (w : World) :
  one_record_per_id w -> one_record_per_id (run net schedule w).
Proof.
  revert w. induction schedule as [|[now a] rest IH]; intros w H; [exact H|].
  rewrite run_cons. apply IH. now apply one_record_per_id_step.
Qed.

(** An id that is forgotten stays forgotten, and no order with that id is
    posted any more. *)
Lemma forgotten_step (net : nat -> Network) (now : Z) (key : string)
      (a : Action) (w : World) :
  ~ enqueues key a ->
  forgotten key w ->
  forgotten key (step net now a w) /\
  forall j o, In (j, o) (posts (step net now a w)) -> id o = key ->
              In (j, o) (posts w).
Proof.
  intros Hfresh [Hstore Htasks]. destruct a as [|who|data]; simpl;
    [| |unfold storage_add; destruct (has_key (id data) (store w));
        [split; [now split | auto] | split; [|auto]; split; [|exact Htasks]; simpl;
         intros Hin; apply in_map_iff in Hin; destruct Hin as (x & E & Hx);
         apply In_insert_by_key in Hx; destruct Hx as [->|Hx];
         [now apply Hfresh | apply Hstore; rewrite <- E; now apply in_map]]].
  - split; [|auto]. split; [exact Hstore|].
    apply Forall_app. split; [exact Htasks|]. constructor; [tauto | constructor].
  - unfold resume. destruct (nth_error (tasks w) who) as [t|] eqn:E;
      [|split; [now split | auto]].
    pose proof (Forall_nth_error _ _ _ _ Htasks E) as Ht.
    destruct t as [|todo results|order todo results
                   |order outcome answered_at todo results|results].
    + split; [|auto]. split; [exact Hstore|].
      apply Forall_set_task; [exact Htasks | exact Hstore].
    + destruct todo as [|order rest].
      * split; [|auto]. split; [exact Hstore|].
        apply Forall_set_task; [exact Htasks | tauto].
      * split.
        -- split; [exact Hstore|]. now apply Forall_set_task.
        -- intros j o Hin Hid. simpl in Hin. apply in_app_or in Hin.
           destruct Hin as [Hin|[Heq|[]]]; [exact Hin|].
           inversion Heq; subst. exfalso. apply Ht. now left.
    + split; [|auto]. split; [exact Hstore|]. now apply Forall_set_task.
    + pose proof (key_of_settled key outcome answered_at order
                    (store w)) as Hkeys.
      destruct (settle outcome answered_at order (store w)) as [db' r].
      simpl in Hkeys, Ht. split; [|auto]. split.
      * intros Hin. destruct (Hkeys Hin) as [H|H]; [contradiction|].
        apply Ht. now left.
      * apply Forall_set_task; [exact Htasks|]. simpl. tauto.
    + split; [now split | auto].
Qed.

Lemma forgotten_run (net : nat -> Network) (key : string)
      (schedule : list (Z * Action)) (w : World) :
  (forall now a, In (now, a) schedule -> ~ enqueues key a) ->
  forgotten key w ->
  forgotten key (run net schedule w) /\
  forall j o, In (j, o) (posts (run net schedule w)) -> id o = key ->
              In (j, o) (posts w).
Proof.
  revert w. induction schedule as [|[now a] rest IH]; intros w Hfresh H;
    [now split|].
  rewrite run_cons.
  destruct (forgotten_step net now key a w (Hfresh now a (or_introl eq_refl)) H)
    as [H1 Hposts1].
  destruct (IH _ (fun t b Hb => Hfresh t b (or_intror Hb)) H1) as [H2 Hposts2].
  split; [exact H2|].
  intros j o Hin Hid. apply Hposts1; [|exact Hid]. now apply Hposts2.
Qed.

Lemma forgotten_not_in_flight (key : string) (w : World) :
  forgotten key w -> forall x, In x (in_flight w) -> id x <> key.
Proof.
  intros [_ Htasks] x Hx Hid. unfold in_flight in Hx.
  apply in_flat_map in Hx. destruct Hx as (t & Ht & Hx).
  assert (Hno : ~ holds key t).
  { clear Hx. revert t Ht. now apply Forall_forall. }
  destruct t as [|todo res|o todo res|o outcome answered_at todo res|res];
    simpl in Hx; try contradiction.
  destruct Hx as [->|[]]. apply Hno. left. exact Hid.
Qed.

Lemma in_flight_for_none (key : string) (ts : list Task) :
  (forall t, In t ts -> ~ holds key t) ->
  filter (fun x => (id x =? key)%string)
         (flat_map (fun t => match t with InFlight o _ _ => [o] | _ => [] end) ts)
  = [].
Proof.
  induction ts as [|t rest IH]; intros Hnone; [reflexivity|].
  simpl. rewrite filter_app, IH by (intros t' Ht'; apply Hnone; now right).
  rewrite app_nil_r.
  destruct t as [|todo res|o todo res|o outcome answered_at todo res|res];
    try reflexivity.
  simpl. destruct (String.eqb_spec (id o) key) as [E|_]; [|reflexivity].
  exfalso. apply (Hnone (InFlight o todo res)); [now left|]. simpl. now left.
Qed.

(** An invocation awaits each post: it has at most one delivery in flight.
    So an order that at most one invocation has before it has at most one
    delivery in flight. *)
Lemma in_flight_for_at_most_one (key : string) (ts : list Task) :
  (forall i j ti tj, i <> j ->
     nth_error ts i = Some ti -> nth_error ts j = Some tj ->
     holds key ti -> ~ holds key tj) ->
  (List.length
     (filter (fun x => (id x =? key)%string)
        (flat_map (fun t => match t with InFlight o _ _ => [o] | _ => [] end) ts))
   <= 1)%nat.
Proof.
  induction ts as [|t rest IH]; intros Hone; [simpl; lia|].
  simpl. rewrite filter_app, length_app.
  assert (Hrest : (List.length
            (filter (fun x => (id x =? key)%string)
               (flat_map (fun t => match t with InFlight o _ _ => [o] | _ => [] end)
                         rest)) <= 1)%nat).
  { apply IH. intros i j ti tj Hij Hi Hj.
    apply (Hone (S i) (S j) ti tj); [congruence | exact Hi | exact Hj]. }
  destruct t as [|todo res|o todo res|o outcome answered_at todo res|res];
    simpl; try exact Hrest.
  destruct (String.eqb_spec (id o) key) as [E|_]; [|exact Hrest].
  rewrite in_flight_for_none; [simpl; lia|].
  intros t' Ht'. apply In_nth_error in Ht'. destruct Ht' as [j Hj].
  apply (Hone 0%nat (S j) (InFlight o todo res) t');
    [discriminate | reflexivity | exact Hj | simpl; now left].
Qed.

Lemma alone_unfold (now : Z) (n : nat) :
  at_time now (repeat (Resume 0) (3 * S n + 1)) =
  (now, Resume 0) :: (now, Resume 0) :: (now, Resume 0) ::
  at_time now (repeat (Resume 0) (3 * n + 1)).
Proof.
  replace (3 * S n + 1)%nat with (S (S (S (3 * n + 1)))) by lia. reflexivity.
Qed.

(** An invocation that is left alone behaves as the function does. *)
Lemma run_alone_from_loop (net : nat -> Network) (now : Z)
      (todo : list PendingOrder) :
  forall (db : object_store) (results : list SyncResult)
         (ps : list (nat * PendingOrder)) (sent : list PendingOrder),
    run net (at_time now (repeat (Resume 0) (3 * List.length todo + 1)))
        (mkWorld db [Looping todo results] ps) =
    let r := sync_loop (net 0%nat) now todo (mkRun db results sent) in
    mkWorld (db_after r) [Returned (syncResults r)]
            (ps ++ map (pair 0%nat) todo).
Proof.
  induction todo as [|order rest IH]; intros db results ps sent.
  - simpl. now rewrite app_nil_r.
  - change (List.length (order :: rest)) with (S (List.length rest)).
    rewrite alone_unfold, sync_loop_cons, !run_cons.
    change (step net now (Resume 0)
                 (mkWorld db [Looping (order :: rest) results] ps))
      with (mkWorld db [InFlight order rest results] (ps ++ [(0%nat, order)])).
    change (step net now (Resume 0)
                 (mkWorld db [InFlight order rest results]
                          (ps ++ [(0%nat, order)])))
      with (mkWorld db [Answered order (net 0%nat order) now rest results]
                    (ps ++ [(0%nat, order)])).
    unfold step, resume. cbn [tasks nth_error store posts db_after set_task].
    destruct (settle (net 0%nat order) now order db) as [db' r] eqn:E.
    cbn [fst snd].
    rewrite (IH db' (results ++ [r]) (ps ++ [(0%nat, order)]) (sent ++ [order])).
    simpl. now rewrite <- app_assoc.
Qed.

Lemma run_alone (net : nat -> Network) (now : Z) (db : object_store) :
  run net (alone now db) (start db) =
  mkWorld (db_after (syncPendingOrders (net 0%nat) now db))
          [Returned (syncResults (syncPendingOrders (net 0%nat) now db))]
          (map (pair 0%nat) db).
Proof.
  unfold alone.
  replace (3 * List.length db + 2)%nat with (S (3 * List.length db + 1)) by lia.
  change (at_time now (Invoke :: repeat (Resume 0) (S (3 * List.length db + 1))))
    with ((now, Invoke) :: (now, Resume 0) ::
          at_time now (repeat (Resume 0) (3 * List.length db + 1))).
  rewrite !run_cons.
  change (step net now (Resume 0) (step net now Invoke (start db)))
    with (mkWorld db [Looping db []] []).
  apply (run_alone_from_loop net now db db [] [] []).
Qed.




End OfflineQueueProps.

(* ------------------------------------------------------------------ *)
(** ** Properties of the service worker *)

Module ServiceWorkerProps.
Import Data ServiceWorker.

Lemma cache_match_store (u : string) (r : Response) (c : Cache) :
  cache_match u (cache_store u r c) = Some r.
Proof.
  induction c as [|[k r'] t IH]; simpl.
  - now rewrite String.eqb_refl.
  - destruct (k =? u)%string eqn:E; simpl.
    + now rewrite String.eqb_refl.
    + now rewrite E.
Qed.

Lemma cache_match_put (u : string) (r : Response) (c : Cache) :
  storable r = true -> cache_match u (cache_put u r c) = Some r.
Proof.
  intros Hfull. unfold cache_put. rewrite Hfull. apply cache_match_store.
Qed.

Lemma cache_put_refused (u : string) (r : Response) (c : Cache) :
  storable r = false -> cache_put u r c = c.
Proof. intros H. unfold cache_put. now rewrite H. Qed.

Section Worker.
Variable location_origin : string.
Variable fetch : Request -> Settled Response.

Lemma cacheFirst_answers (request : Request) (caches : CacheStorage) :
  exists r caches', cacheFirst fetch request caches =
                    mkHandled (Fulfilled (Some r)) caches'.
Proof.
  unfold cacheFirst.
  destruct (caches_match (url request) caches) as [c|]; [eauto|].
  destruct (fetch request) as [nr|msg]; eauto.
Qed.

Lemma networkFirst_answers (request : Request) (caches : CacheStorage) :
  ~ (mode request = "navigate" /\
     (exists message, fetch request = Rejected message) /\
     caches_match (url request) caches = None /\
     caches_match (location_origin ++ "/offline.html")%string caches = None) ->
  exists r caches', networkFirst location_origin fetch request caches =
                    mkHandled (Fulfilled (Some r)) caches'.
Proof.
  intros Hanswered. unfold networkFirst.
  destruct (fetch request) as [nr|msg]; [eauto|].
  destruct (caches_match (url request) caches) as [c|]; [eauto|].
  destruct (String.eqb_spec (mode request) "navigate") as [Hnav|_]; [|eauto].
  destruct (caches_match (location_origin ++ "/offline.html")%string caches)
    as [page|]; [eauto|].
  exfalso. apply Hanswered. eauto.
Qed.

Lemma staleWhileRevalidate_answers (request : Request) (caches : CacheStorage) :
  cache_match (url request) (dynamic_cache caches) <> None \/
  (exists nr, fetch request = Fulfilled nr) ->
  exists r caches', staleWhileRevalidate fetch request caches =
                    mkHandled (Fulfilled (Some r)) caches'.
Proof.
  intros H. unfold staleWhileRevalidate.
  destruct (cache_match (url request) (dynamic_cache caches)) as [c|]; [eauto|].
  destruct H as [H|[nr H]]; [congruence|]. rewrite H. eauto.
Qed.
End Worker.

(** C5 (amended). A same-origin GET request gets a response from the router,
    a cached one, the network's or the synthetic 503, whenever it is routed
    cache-first; or network-first, unless [fetch] rejects, no cache holds a
    copy, the request is a navigation and [/offline.html] is not cached; or
    stale-while-revalidate with a copy in the dynamic cache or a network that
    answers. A same-origin request of another method is handed to [fetch]
    as it is: the router settles as [fetch] does, so a rejection of [fetch]
    is the router's rejection. *)
Theorem router_answers (location_origin : string)
        (fetch : Request -> Settled Response)
        (request : Request) (caches : CacheStorage) :
  origin request = location_origin ->
  (method request = "GET" ->
   match strategy_for (pathname request) with
   | CacheFirst => True
   | NetworkFirst =>
       ~ (mode request = "navigate" /\
          (exists message, fetch request = Rejected message) /\
          caches_match (url request) caches = None /\
          caches_match (location_origin ++ "/offline.html")%string caches = None)
   | StaleWhileRevalidate =>
       cache_match (url request) (dynamic_cache caches) <> None \/
       exists nr, fetch request = Fulfilled nr
   end ->
   answers (onFetch location_origin fetch request caches)) /\
  (method request <> "GET" ->
   onFetch location_origin fetch request caches =
   Some (mkHandled (match fetch request with
                    | Fulfilled r => Fulfilled (Some r)
                    | Rejected message => Rejected message
                    end) caches)).
Proof.
  intros Horigin. unfold onFetch, answers.
  rewrite Horigin, String.eqb_refl. simpl. split.
  - intros Hget Hroute. rewrite Hget. simpl. unfold handleGetRequest.
    destruct (strategy_for (pathname request)).
    + destruct (networkFirst_answers location_origin fetch request caches Hroute)
        as (r & caches' & E).
      rewrite E. eauto.
    + destruct (cacheFirst_answers fetch request caches) as (r & caches' & E).
      rewrite E. eauto.
    + destruct (staleWhileRevalidate_answers fetch request caches Hroute)
        as (r & caches' & E).
      rewrite E. eauto.
  - intros Hother.
    destruct (String.eqb_spec (method request) "GET"); [contradiction | reflexivity].
Qed.

Lemma router_answers_witness :
  answers (onFetch here offline (get "/menu" "cors") empty_caches) /\
  answers (onFetch here offline (get "/menu" "navigate") holding_menu) /\
  answers (onFetch here offline (get "/orders" "navigate") holding_offline_page) /\
  answers (onFetch here (serves menu_v1) (get "/menu" "navigate") empty_caches) /\
  answers (onFetch here offline (get "/static/js/bundle.js" "no-cors") empty_caches) /\
  onFetch here (serves menu_v1) (mkRequest here "/api/orders" "" "POST" "cors")
          empty_caches =
    Some (mkHandled (Fulfilled (Some menu_v1)) empty_caches).
Proof.
  split; [|split; [|split; [|split; [|split]]]].
  - apply (router_answers here offline (get "/menu" "cors") empty_caches);
      [reflexivity | reflexivity |].
    intros (Hnav & _). vm_compute in Hnav. discriminate.
  - apply (router_answers here offline (get "/menu" "navigate") holding_menu);
      [reflexivity | reflexivity |].
    intros (_ & _ & Hmiss & _). vm_compute in Hmiss. discriminate.
  - apply (router_answers here offline (get "/orders" "navigate")
                          holding_offline_page);
      [reflexivity | reflexivity |].
    intros (_ & _ & _ & Hmiss). vm_compute in Hmiss. discriminate.
  - apply (router_answers here (serves menu_v1) (get "/menu" "navigate")
                          empty_caches);
      [reflexivity | reflexivity |].
    intros (_ & (message & Hrej) & _). vm_compute in Hrej. discriminate.
  - apply (router_answers here offline (get "/static/js/bundle.js" "no-cors")
                          empty_caches);
      [reflexivity | reflexivity | exact I].
  - apply (router_answers here (serves menu_v1)
                          (mkRequest here "/api/orders" "" "POST" "cors")
                          empty_caches);
      [reflexivity | vm_compute; discriminate].
Defined.

(** C5 as stated fails. A POST whose [fetch] rejects is answered with that
    rejection. A GET of a page that is in no cache, routed
    stale-while-revalidate while the network is down, is answered with a
    promise fulfilled with [undefined], which is no response; and so is a
    navigation to [/menu] while the network is down, nothing is cached for
    it and [/offline.html] is not cached either. *)
Lemma router_answers_counterexample :
  onFetch here offline (mkRequest here "/api/orders" "" "POST" "cors") empty_caches =
    Some (mkHandled (Rejected "TypeError: Failed to fetch") empty_caches) /\
  ~ answers (onFetch here offline (mkRequest here "/api/orders" "" "POST" "cors")
                     empty_caches) /\
  onFetch here offline (get "/about" "cors") empty_caches =
    Some (mkHandled (Fulfilled None) empty_caches) /\
  onFetch here offline (get "/menu" "navigate") empty_caches =
    Some (mkHandled (Fulfilled None) empty_caches).
Proof.
  split; [reflexivity|]. split; [|split; reflexivity].
  intros (r & caches & H). vm_compute in H. discriminate.
Qed.

(** C6 (amended). For a request handled network-first: when [fetch] answers
    with an [ok] response that the cache accepts (it is not a partial
    response, status 206, and its [Vary] header does not hold [*]), that
    response is returned and the dynamic cache holds it afterwards; when
    [fetch] answers with a response that is not [ok], or with one that the
    cache refuses, that response is returned and nothing is stored; when
    [fetch] rejects and a cache holds a copy, the copy is returned; when
    [fetch] rejects and no cache holds a copy, a request that is not a
    navigation gets the response ['Network error'] with status 503, and a
    navigation gets the cached [/offline.html] when a cache holds that
    page. *)
Theorem networkFirst_outcomes (location_origin : string)
        (fetch : Request -> Settled Response)
        (request : Request) (caches : CacheStorage) :
  (forall nr, fetch request = Fulfilled nr -> ok nr = true -> storable nr = true ->
     settled (networkFirst location_origin fetch request caches) =
       Fulfilled (Some nr) /\
     cache_match (url request)
       (dynamic_cache
          (caches_after (networkFirst location_origin fetch request caches)))
     = Some nr /\
     static_cache
       (caches_after (networkFirst location_origin fetch request caches))
     = static_cache caches) /\
  (forall nr, fetch request = Fulfilled nr ->
     ok nr = false \/ storable nr = false ->
     networkFirst location_origin fetch request caches =
       mkHandled (Fulfilled (Some nr)) caches) /\
  (forall message cached,
     fetch request = Rejected message ->
     caches_match (url request) caches = Some cached ->
     networkFirst location_origin fetch request caches =
       mkHandled (Fulfilled (Some cached)) caches) /\
  (forall message,
     fetch request = Rejected message ->
     caches_match (url request) caches = None ->
     mode request <> "navigate" ->
     networkFirst location_origin fetch request caches =
       mkHandled (Fulfilled (Some (mkResponse "Network error" 503 []))) caches) /\
  (forall message page,
     fetch request = Rejected message ->
     caches_match (url request) caches = None ->
     mode request = "navigate" ->
     caches_match (location_origin ++ "/offline.html")%string caches = Some page ->
     networkFirst location_origin fetch request caches =
       mkHandled (Fulfilled (Some page)) caches).
Proof.
  unfold networkFirst. split; [|split; [|split; [|split]]].
  - intros nr Hnet Hok Hfull. rewrite Hnet, Hok. simpl.
    split; [reflexivity|]. split; [now apply cache_match_put | reflexivity].
  - intros nr Hnet [Hok|Hpartial]; rewrite Hnet.
    + now rewrite Hok.
    + destruct (ok nr); [|reflexivity].
      unfold put_dynamic. rewrite (cache_put_refused _ _ _ Hpartial).
      now destruct caches.
  - intros message cached Hnet Hhit. now rewrite Hnet, Hhit.
  - intros message Hnet Hmiss Hmode. rewrite Hnet, Hmiss.
    destruct (String.eqb_spec (mode request) "navigate"); [contradiction | reflexivity].
  - intros message page Hnet Hmiss Hmode Hpage. rewrite Hnet, Hmiss, Hmode, Hpage.
    reflexivity.
Qed.

Lemma networkFirst_outcomes_witness :
  settled (networkFirst here (serves menu_v1) (get "/menu" "cors") empty_caches) =
    Fulfilled (Some menu_v1) /\
  networkFirst here (serves server_error) (get "/menu" "cors") holding_menu =
    mkHandled (Fulfilled (Some server_error)) holding_menu /\
  networkFirst here (serves partial_content) (get "/menu" "cors") holding_menu =
    mkHandled (Fulfilled (Some partial_content)) holding_menu /\
  networkFirst here (serves varies_on_all) (get "/menu" "cors") empty_caches =
    mkHandled (Fulfilled (Some varies_on_all)) empty_caches /\
  networkFirst here offline (get "/menu" "cors") holding_menu =
    mkHandled (Fulfilled (Some menu_v1)) holding_menu /\
  networkFirst here offline (get "/menu" "cors") empty_caches =
    mkHandled (Fulfilled (Some (mkResponse "Network error" 503 []))) empty_caches /\
  networkFirst here offline (get "/menu" "navigate") holding_offline_page =
    mkHandled (Fulfilled (Some offline_page)) holding_offline_page.
Proof.
  split; [|split; [|split; [|split; [|split; [|split]]]]].
  - destruct (networkFirst_outcomes here (serves menu_v1) (get "/menu" "cors")
                                    empty_caches) as (Hstored & _).
    apply (Hstored menu_v1); reflexivity.
  - destruct (networkFirst_outcomes here (serves server_error) (get "/menu" "cors")
                                    holding_menu) as (_ & Hnot & _).
    apply (Hnot server_error); [reflexivity | left; reflexivity].
  - destruct (networkFirst_outcomes here (serves partial_content)
                                    (get "/menu" "cors") holding_menu)
      as (_ & Hnot & _).
    apply (Hnot partial_content); [reflexivity | right; reflexivity].
  - destruct (networkFirst_outcomes here (serves varies_on_all)
                                    (get "/menu" "cors") empty_caches)
      as (_ & Hnot & _).
    apply (Hnot varies_on_all); [reflexivity | right; reflexivity].
  - destruct (networkFirst_outcomes here offline (get "/menu" "cors") holding_menu)
      as (_ & _ & Hcopy & _).
    apply (Hcopy "TypeError: Failed to fetch" menu_v1); reflexivity.
  - destruct (networkFirst_outcomes here offline (get "/menu" "cors") empty_caches)
      as (_ & _ & _ & Herror & _).
    apply (Herror "TypeError: Failed to fetch");
      [reflexivity | reflexivity | vm_compute; discriminate].
  - destruct (networkFirst_outcomes here offline (get "/menu" "navigate")
                                    holding_offline_page)
      as (_ & _ & _ & _ & Hpage).
    apply (Hpage "TypeError: Failed to fetch" offline_page); reflexivity.
Defined.

(** C6 as stated fails. When the network answers [/menu] with a 500, that
    response is returned although a cached copy exists, and it is not
    stored: the cache keeps the copy it had. And a navigation to [/menu]
    with the network down and nothing cached gets a promise fulfilled with
    [undefined], not an offline response. *)
Lemma networkFirst_counterexample :
  serves server_error (get "/menu" "cors") = Fulfilled server_error /\
  ok server_error = false /\
  networkFirst here (serves server_error) (get "/menu" "cors") holding_menu =
    mkHandled (Fulfilled (Some server_error)) holding_menu /\
  caches_match (url (get "/menu" "cors")) holding_menu = Some menu_v1 /\
  server_error <> menu_v1 /\
  networkFirst here offline (get "/menu" "navigate") empty_caches =
    mkHandled (Fulfilled None) empty_caches.
Proof.
  repeat split. discriminate.
Qed.

End ServiceWorkerProps.

(* ------------------------------------------------------------------ *)
(** ** Properties of the cart's getters and derived values *)

Module CartDerivedProps.
Import Data Cart CartDerived.

Lemma fold_quantity (l : list CartLine) (a : Z) :
  fold_left (fun total item => total + quantity item) l a = a + sum_quantity l.
Proof.
  revert a. induction l as [|x t IH]; intros a; simpl; [lia|].
  rewrite IH. lia.
Qed.

Lemma cartItemCount_cons (x : CartLine) (t : cart) :
  cartItemCount (x :: t) = quantity x + cartItemCount t.
Proof. unfold cartItemCount. simpl. rewrite !fold_quantity. lia. Qed.

Lemma getItemQuantity_cons (mid : string) (x : CartLine) (t : cart) :
  getItemQuantity mid (x :: t) =
  (if (id x =? mid)%string then quantity x else 0) + getItemQuantity mid t.
Proof.
  unfold getItemQuantity. simpl.
  destruct (id x =? mid)%string; simpl; rewrite !fold_quantity; lia.
Qed.

Lemma same_line_id (mid instr : string) (x : CartLine) :
  same_line mid instr x = true -> id x = mid.
Proof.
  unfold same_line. intros H. apply andb_true_iff in H.
  now apply String.eqb_eq.
Qed.

(** X1. [addToCart] with quantity [q] raises the cart's item count by
    exactly [q], raises the quantity held of that menu item by exactly [q],
    and leaves the quantity held of every other menu item as it was, whether
    it grows a line or appends one. *)
Theorem addToCart_counts (m : MenuItem) (q : Z) (instr sfx : string) (c : cart) :
  cartItemCount (addToCart m q instr sfx c) = cartItemCount c + q /\
  getItemQuantity (mi_id m) (addToCart m q instr sfx c) =
    getItemQuantity (mi_id m) c + q /\
  (forall other, other <> mi_id m ->
     getItemQuantity other (addToCart m q instr sfx c) = getItemQuantity other c).
Proof.
  split; [|split].
  - induction c as [|x t IH].
    + unfold addToCart, cartItemCount. simpl. lia.
    + rewrite CartProps.addToCart_cons.
      destruct (same_line (mi_id m) instr x).
      * rewrite !cartItemCount_cons. simpl. lia.
      * rewrite !cartItemCount_cons, IH. lia.
  - induction c as [|x t IH].
    + unfold addToCart, getItemQuantity. simpl. rewrite String.eqb_refl. simpl. lia.
    + rewrite CartProps.addToCart_cons.
      destruct (same_line (mi_id m) instr x) eqn:E.
      * rewrite !getItemQuantity_cons. simpl.
        rewrite (same_line_id _ _ _ E), String.eqb_refl. lia.
      * rewrite !getItemQuantity_cons, IH. lia.
  - intros other Hother. induction c as [|x t IH].
    + unfold addToCart, getItemQuantity. simpl.
      destruct (String.eqb_spec (mi_id m) other); [congruence | reflexivity].
    + rewrite CartProps.addToCart_cons.
      destruct (same_line (mi_id m) instr x) eqn:E.
      * rewrite !getItemQuantity_cons. simpl.
        rewrite (same_line_id _ _ _ E).
        destruct (String.eqb_spec (mi_id m) other); [congruence | reflexivity].
      * rewrite !getItemQuantity_cons, IH. reflexivity.
Qed.

Lemma addToCart_counts_witness :
  getItemQuantity "cola" (addToCart pizza 1 "" "1700000000500_aaaaaaaaa" two_item_cart)
  = 3.
Proof.
  destruct (addToCart_counts pizza 1 "" "1700000000500_aaaaaaaaa" two_item_cart)
    as (_ & _ & Hother).
  rewrite Hother; [reflexivity | discriminate].
Defined.

(** X2. A cart in which every line has quantity at least 1 stays so under
    [addToCart] with a quantity of at least 1, under [updateQuantity] with
    any number (zero and negative numbers remove the line instead of storing
    them), under [removeFromCart] and under [updateSpecialInstructions]. *)
Theorem quantities_stay_positive (c : cart) :
  quantities_positive c ->
  (forall m q instr sfx, 1 <= q -> quantities_positive (addToCart m q instr sfx c)) /\
  (forall cid n, quantities_positive (updateQuantity cid n c)) /\
  (forall cid, quantities_positive (removeFromCart cid c)) /\
  (forall cid text, quantities_positive (updateSpecialInstructions cid text c)).
Proof.
  unfold quantities_positive. intros Hc.
  assert (Hrm : forall cid, Forall (fun l => 1 <= quantity l) (removeFromCart cid c)).
  { intros cid. apply Forall_forall. intros l Hl.
    apply filter_In in Hl. destruct Hl as [Hl _].
    revert l Hl. now apply Forall_forall. }
  split; [|split; [|split]].
  - intros m q instr sfx Hq. clear Hrm. induction Hc as [|x t Hx Ht IH].
    + unfold addToCart. simpl. constructor; [simpl; lia | constructor].
    + rewrite CartProps.addToCart_cons.
      destruct (same_line (mi_id m) instr x).
      * constructor; [simpl; lia | exact Ht].
      * constructor; [exact Hx | exact IH].
  - intros cid n. unfold updateQuantity.
    destruct (Z.leb_spec n 0) as [_|Hn]; [apply Hrm|].
    clear Hrm. induction Hc as [|x t Hx Ht IH]; simpl; constructor; [|exact IH].
    destruct (cartId x =? cid)%string; simpl; lia.
  - exact Hrm.
  - intros cid text. clear Hrm.
    induction Hc as [|x t Hx Ht IH]; simpl; constructor; [|exact IH].
    destruct (cartId x =? cid)%string; simpl; exact Hx.
Qed.

Lemma quantities_stay_positive_witness :
  quantities_positive (addToCart pizza 1 "" "1700000000500_aaaaaaaaa" two_item_cart) /\
  quantities_positive (updateQuantity "cola_1700000000200_ccccccccc" (-4) two_item_cart).
Proof.
  assert (H : quantities_positive two_item_cart).
  { repeat constructor; simpl; lia. }
  destruct (quantities_stay_positive two_item_cart H) as (Hadd & Hupd & _).
  split; [apply Hadd; lia | apply Hupd].
Defined.

Lemma getCartItem_filter_other (cid other : string) (c : cart) :
  other <> cid ->
  getCartItem other (removeFromCart cid c) = getCartItem other c.
Proof.
  intros Hne. unfold getCartItem, removeFromCart.
  induction c as [|x t IH]; simpl; [reflexivity|].
  destruct (String.eqb_spec (cartId x) cid) as [E|E]; simpl.
  - destruct (String.eqb_spec (cartId x) other); [congruence | exact IH].
  - destruct (cartId x =? other)%string; [reflexivity | exact IH].
Qed.

(** X3. After [removeFromCart(cartId)] a lookup of that [cartId] finds
    nothing, a lookup of any other [cartId] finds what it found before, and
    removing again changes nothing. *)
Theorem removeFromCart_lookup (cid : string) (c : cart) :
  getCartItem cid (removeFromCart cid c) = None /\
  (forall other, other <> cid ->
     getCartItem other (removeFromCart cid c) = getCartItem other c) /\
  removeFromCart cid (removeFromCart cid c) = removeFromCart cid c.
Proof.
  split; [|split].
  - unfold getCartItem, removeFromCart.
    induction c as [|x t IH]; simpl; [reflexivity|].
    destruct (cartId x =? cid)%string eqn:E; simpl; [exact IH|].
    now rewrite E.
  - intros other. apply getCartItem_filter_other.
  - unfold removeFromCart.
    induction c as [|x t IH]; simpl; [reflexivity|].
    destruct (cartId x =? cid)%string eqn:E; simpl; [exact IH|].
    rewrite E. simpl. now rewrite IH.
Qed.

Lemma removeFromCart_lookup_witness :
  getCartItem "pizza_1700000000000_k3j9x0q1z"
              (removeFromCart "cola_1700000000200_ccccccccc" two_item_cart)
  = Some pizza_line.
Proof.
  destruct (removeFromCart_lookup "cola_1700000000200_ccccccccc" two_item_cart)
    as (_ & Hother & _).
  rewrite Hother; [reflexivity | discriminate].
Defined.

(** X4. [updateQuantity(cartId, n)] with [n > 0] keeps every line in its
    place, makes a lookup of that [cartId] find the line it found before with
    quantity [n], and leaves the result of every other lookup as it was. *)
Theorem updateQuantity_lookup (cid : string) (n : Z) (c : cart) :
  0 < n ->
  map cartId (updateQuantity cid n c) = map cartId c /\
  getCartItem cid (updateQuantity cid n c) =
    option_map (set_quantity n) (getCartItem cid c) /\
  (forall other, other <> cid ->
     getCartItem other (updateQuantity cid n c) = getCartItem other c).
Proof.
  intros Hn. unfold updateQuantity.
  destruct (Z.leb_spec n 0) as [Hle|_]; [lia|].
  split; [|split].
  - induction c as [|x t IH]; simpl; [reflexivity|].
    rewrite IH. destruct (cartId x =? cid)%string; reflexivity.
  - unfold getCartItem.
    induction c as [|x t IH]; simpl; [reflexivity|].
    destruct (cartId x =? cid)%string eqn:E; simpl; rewrite E; [reflexivity | exact IH].
  - intros other Hne. unfold getCartItem.
    induction c as [|x t IH]; simpl; [reflexivity|].
    destruct (String.eqb_spec (cartId x) cid) as [E|E]; simpl.
    + destruct (String.eqb_spec (cartId x) other); [congruence | exact IH].
    + destruct (cartId x =? other)%string; [reflexivity | exact IH].
Qed.

Lemma updateQuantity_lookup_witness :
  option_map quantity
    (getCartItem "cola_1700000000200_ccccccccc"
       (updateQuantity "cola_1700000000200_ccccccccc" 5 two_item_cart))
  = Some 5.
Proof.
  destruct (updateQuantity_lookup "cola_1700000000200_ccccccccc" 5 two_item_cart)
    as (_ & Hget & _); [lia|].
  rewrite Hget. reflexivity.
Defined.

(** X5. [addToCart] never drops, reorders or renames a line: the [cartId]s
    of the cart are those it had, followed by the fresh one when no line
    matched; and afterwards the menu item is in the cart. *)
Theorem addToCart_keeps_lines (m : MenuItem) (q : Z) (instr sfx : string) (c : cart) :
  map cartId (addToCart m q instr sfx c) =
    (if existsb (same_line (mi_id m) instr) c then map cartId c
     else map cartId c ++ [(mi_id m ++ "_" ++ sfx)%string]) /\
  isInCart (mi_id m) (addToCart m q instr sfx c) = true.
Proof.
  split.
  - induction c as [|x t IH]; [reflexivity|].
    rewrite CartProps.addToCart_cons. simpl.
    destruct (same_line (mi_id m) instr x); simpl; [reflexivity|].
    rewrite IH. destruct (existsb (same_line (mi_id m) instr) t); reflexivity.
  - unfold isInCart. induction c as [|x t IH].
    + unfold addToCart. simpl. now rewrite String.eqb_refl.
    + rewrite CartProps.addToCart_cons.
      destruct (same_line (mi_id m) instr x) eqn:E; simpl.
      * rewrite (same_line_id _ _ _ E), String.eqb_refl. reflexivity.
      * rewrite IH. apply orb_true_r.
Qed.

Lemma max_fold_bounds (ts : list Z) (t : Z) :
  In (fold_left Z.max ts t) (t :: ts) /\
  forall x, In x (t :: ts) -> x <= fold_left Z.max ts t.
Proof.
  revert t. induction ts as [|u us IH]; intros t; simpl.
  - split; [now left|]. intros x [<-|[]]. lia.
  - destruct (IH (Z.max t u)) as [Hin Hmax]. split.
    + destruct Hin as [Hin|Hin]; [|right; now right].
      rewrite <- Hin. destruct (Z.max_spec t u) as [[_ ->]|[_ ->]]; auto.
    + pose proof (Hmax (Z.max t u) (or_introl eq_refl)) as Htop.
      intros x [Hx|[Hx|Hx]]; [subst x; lia | subst x; lia |].
      apply Hmax. now right.
Qed.

(** X6. The estimated preparation time of the empty cart is 0. For a cart
    with lines it is the time of its slowest line (a missing or zero time
    counting as 15) plus a buffer of two minutes per line, capped at 10: so
    it is at least every line's time plus 2 and at most the slowest line's
    time plus 10. *)
Theorem estimatedPrepTime_bounds (c : cart) :
  estimatedPrepTime [] = 0 /\
  (c <> [] ->
   (forall l, In l c -> prep_time_or_default l + 2 <= estimatedPrepTime c) /\
   (exists slowest, In slowest c /\
      (forall l, In l c -> prep_time_or_default l <= prep_time_or_default slowest) /\
      estimatedPrepTime c =
        prep_time_or_default slowest + Z.min (Z.of_nat (List.length c) * 2) 10 /\
      estimatedPrepTime c <= prep_time_or_default slowest + 10)).
Proof.
  split; [reflexivity|]. intros Hne.
  destruct c as [|x t]; [congruence|]. clear Hne.
  unfold estimatedPrepTime.
  change (map prep_time_or_default (x :: t))
    with (prep_time_or_default x :: map prep_time_or_default t).
  cbv zeta.
  destruct (max_fold_bounds (map prep_time_or_default t) (prep_time_or_default x))
    as [Hin Hmax].
  assert (Hlen : 2 <= Z.min (Z.of_nat (List.length (x :: t)) * 2) 10).
  { simpl List.length. lia. }
  assert (Hall : forall l, In l (x :: t) ->
            prep_time_or_default l <=
            fold_left Z.max (map prep_time_or_default t) (prep_time_or_default x)).
  { intros l Hl. apply Hmax.
    change (In (prep_time_or_default l) (map prep_time_or_default (x :: t))).
    now apply in_map. }
  split.
  - intros l Hl. specialize (Hall l Hl). lia.
  - change (In (fold_left Z.max (map prep_time_or_default t)
                          (prep_time_or_default x))
               (map prep_time_or_default (x :: t))) in Hin.
    apply in_map_iff in Hin. destruct Hin as (slowest & Heq & Hs).
    exists slowest. split; [exact Hs|]. rewrite <- Heq in Hall |- *.
    split; [exact Hall|]. split; [reflexivity | lia].
Qed.

Lemma estimatedPrepTime_bounds_witness :
  estimatedPrepTime two_item_cart = 24.
Proof.
  destruct (estimatedPrepTime_bounds two_item_cart) as [_ H].
  destruct H as [_ (slowest & _ & _ & _ & _)]; [discriminate|].
  reflexivity.
Defined.

(** *** validateCart on a cart with lines *)

Lemma includes_In (ids : list string) (x : string) :
  includes ids x = true <-> In x ids.
Proof.
  unfold includes. rewrite existsb_exists. split.
  - intros (y & Hy & E). apply String.eqb_eq in E. now subst.
  - intros H. exists x. split; [exact H | apply String.eqb_refl].
Qed.

Lemma In_distinct (xs seen : list string) (x : string) :
  In x (distinct seen xs) <-> In x xs /\ ~ In x seen.
Proof.
  revert seen. induction xs as [|y t IH]; intros seen; simpl; [tauto|].
  destruct (includes seen y) eqn:E.
  - apply includes_In in E. rewrite IH. split.
    + intros [H1 H2]. tauto.
    + intros [[->|H1] H2]; [contradiction | tauto].
  - assert (Hy : ~ In y seen).
    { intros H. apply includes_In in H. congruence. }
    simpl. rewrite IH. simpl. split.
    + intros [->|[H1 H2]]; [tauto|]. split; [tauto|]. intros H. apply H2. now right.
    + intros [[->|H1] H2]; [now left|].
      destruct (string_dec y x) as [->|Hne]; [now left|].
      right. split; [exact H1|]. intros [E'|H]; [contradiction | contradiction].
Qed.

Lemma NoDup_distinct (xs seen : list string) : NoDup (distinct seen xs).
Proof.
  revert seen. induction xs as [|y t IH]; intros seen; simpl; [constructor|].
  destruct (includes seen y); [apply IH|].
  constructor; [|apply IH].
  intros H. apply In_distinct in H. destruct H as [_ H]. apply H. now left.
Qed.

Lemma filter_split_length {A : Type} (p : A -> bool) (l : list A) :
  List.length l =
  (List.length (filter p l) + List.length (filter (fun x => negb (p x)) l))%nat.
Proof.
  induction l as [|x t IH]; simpl; [reflexivity|].
  destruct (p x); simpl; lia.
Qed.

(** X7. On a cart with lines, when the capability answers that not
    everything is available, [validateCart] returns [valid: false] with the
    lines whose menu item id is reported, and the cart keeps exactly the
    other lines, in their order: no line is lost or duplicated, and no
    remaining line is reported. When the capability answers [allAvailable]
    the cart is unchanged, whatever ids the answer lists. *)
Theorem validateCart_removes_reported
        (check : CheckAvailabilityFn) (c : cart) (a : Availability) :
  c <> [] ->
  check (distinct [] (map id c)) = Fulfilled a ->
  (allAvailable a = false ->
   result (validateCart check c) =
     mkValidation false
       (Some (filter (fun l => includes (unavailableIds a) (id l)) c)) None /\
   cart_after (validateCart check c) =
     filter (fun l => negb (includes (unavailableIds a) (id l))) c /\
   (forall l, In l (cart_after (validateCart check c)) ->
              ~ In (id l) (unavailableIds a)) /\
   List.length c =
     (List.length (filter (fun l => includes (unavailableIds a) (id l)) c) +
      List.length (cart_after (validateCart check c)))%nat) /\
  (allAvailable a = true ->
   result (validateCart check c) = mkValidation true (Some []) None /\
   cart_after (validateCart check c) = c).
Proof.
  intros Hne Hcheck. destruct c as [|x t]; [congruence|].
  unfold validateCart. rewrite Hcheck. split; intros Hall; rewrite Hall; simpl negb; cbv iota.
  - split; [reflexivity|]. split; [reflexivity|]. split.
    + intros l Hl. cbn [cart_after] in Hl. apply filter_In in Hl.
      destruct Hl as [_ Hl].
      apply negb_true_iff in Hl. intros Hin. apply includes_In in Hin. congruence.
    + cbn [cart_after].
      apply (filter_split_length (fun l => includes (unavailableIds a) (id l))).
  - split; reflexivity.
Qed.

Lemma validateCart_removes_reported_witness :
  map id (cart_after (validateCart
                        (fun _ => Fulfilled (mkAvailability false ["cola"]))
                        two_item_cart))
  = ["pizza"].
Proof.
  destruct (validateCart_removes_reported
              (fun _ => Fulfilled (mkAvailability false ["cola"]))
              two_item_cart (mkAvailability false ["cola"]))
    as [Hsome _]; [discriminate | reflexivity |].
  destruct (Hsome eq_refl) as (_ & Hafter & _).
  rewrite Hafter. reflexivity.
Defined.

(** X8. On a cart with lines [validateCart] calls the capability exactly
    once, with the menu item ids of the cart, each id once; it sets the
    loading flag and resets it, in every outcome. When the capability
    rejects, the result is [{ valid: false, error }] with the rejection's
    message and the cart is unchanged. *)
Theorem validateCart_call_and_failure (check : CheckAvailabilityFn) (c : cart) :
  c <> [] ->
  (exists ids,
      check_calls (validateCart check c) = [ids] /\
      NoDup ids /\
      forall x, In x ids <-> exists l, In l c /\ id l = x) /\
  loading_writes (validateCart check c) = [true; false] /\
  (forall message,
      check (distinct [] (map id c)) = Rejected message ->
      result (validateCart check c) = mkValidation false None (Some message) /\
      cart_after (validateCart check c) = c).
Proof.
  intros Hne. destruct c as [|x t]; [congruence|].
  split; [|split].
  - exists (distinct [] (map id (x :: t))). split; [|split].
    + apply CartProps.validateCart_nonempty_calls.
    + apply NoDup_distinct.
    + intros y. rewrite In_distinct, in_map_iff. split.
      * intros [(l & E & Hl) _]. eauto.
      * intros (l & Hl & E). split; [eauto | intros []].
  - unfold validateCart.
    destruct (check _) as [a|msg]; [|reflexivity].
    destruct (negb (allAvailable a)); reflexivity.
  - intros message Hrej. unfold validateCart. rewrite Hrej. split; reflexivity.
Qed.

Lemma validateCart_call_and_failure_witness :
  result (validateCart (fun _ => Rejected "timeout") two_item_cart) =
    mkValidation false None (Some "timeout") /\
  cart_after (validateCart (fun _ => Rejected "timeout") two_item_cart) =
    two_item_cart.
Proof.
  destruct (validateCart_call_and_failure (fun _ => Rejected "timeout") two_item_cart)
    as (_ & _ & Hrej); [discriminate|].
  apply (Hrej "timeout"). reflexivity.
Defined.

(** *** validateCart with the backend's availability query *)

Lemma no_unavailable_row (rows : list AvailabilityRow) :
  (Z.of_nat (List.length (filter (fun r => negb (row_is_available r)) rows)) =? 0)
  = forallb row_is_available rows.
Proof.
  induction rows as [|r t IH]; simpl; [reflexivity|].
  destruct (row_is_available r); simpl; [exact IH|].
  destruct (Z.eqb_spec (Z.of_nat (S (List.length
              (filter (fun r0 => negb (row_is_available r0)) t)))) 0); [lia | reflexivity].
Qed.

Lemma filter_none_reported (c : cart) :
  filter (fun l => negb (includes [] (id l))) c = c /\
  filter (fun l => includes [] (id l)) c = [].
Proof.
  split.
  - induction c as [|x t IH]; [reflexivity|].
    cbn [filter]. unfold includes at 1. cbn [existsb negb]. now f_equal.
  - induction c as [|x t IH]; [reflexivity|].
    cbn [filter]. unfold includes at 1. cbn [existsb]. exact IH.
Qed.

(** X9. With [checkAvailability] of the backend as the capability, on a cart
    with lines: when the query returns rows, the cart is valid exactly when
    no returned row is unavailable, the lines removed are exactly those whose
    menu item id has an unavailable row, and the others stay; an id for
    which the query returns no row counts as available. When the query
    fails, the cart is unchanged and the result carries the error. *)
Theorem validateCart_with_checkAvailability (query : AvailabilityQuery) (c : cart) :
  c <> [] ->
  (forall rows,
      query (distinct [] (map id c)) = Fulfilled rows ->
      let gone_ids := map row_id (filter (fun r => negb (row_is_available r)) rows) in
      valid (result (validateCart (checkAvailability query) c)) =
        forallb row_is_available rows /\
      unavailableItems (result (validateCart (checkAvailability query) c)) =
        Some (filter (fun l => includes gone_ids (id l)) c) /\
      cart_after (validateCart (checkAvailability query) c) =
        filter (fun l => negb (includes gone_ids (id l))) c) /\
  (forall message,
      query (distinct [] (map id c)) = Rejected message ->
      result (validateCart (checkAvailability query) c) =
        mkValidation false None (Some message) /\
      cart_after (validateCart (checkAvailability query) c) = c).
Proof.
  intros Hne. destruct c as [|x t]; [congruence|]. split.
  - intros rows Hq gone_ids. unfold validateCart, checkAvailability.
    rewrite Hq. cbn [allAvailable unavailableIds].
    rewrite no_unavailable_row. fold gone_ids.
    destruct (forallb row_is_available rows) eqn:Hall; simpl negb; cbv iota.
    + assert (Hnone : gone_ids = []).
      { unfold gone_ids. clear - Hall. induction rows as [|r rs IH]; [reflexivity|].
        simpl in Hall. apply andb_true_iff in Hall. destruct Hall as [Hr Hrs].
        simpl. rewrite Hr. simpl. now apply IH. }
      rewrite Hnone. destruct (filter_none_reported (x :: t)) as [-> ->].
      repeat split.
    + repeat split.
  - intros message Hq. unfold validateCart, checkAvailability. rewrite Hq.
    split; reflexivity.
Qed.

Lemma validateCart_with_checkAvailability_witness :
  valid (result (validateCart (checkAvailability cola_sold_out) two_item_cart)) = false /\
  map id (cart_after (validateCart (checkAvailability cola_sold_out) two_item_cart))
  = ["pizza"].
Proof.
  destruct (validateCart_with_checkAvailability cola_sold_out two_item_cart)
    as [Hrows _]; [discriminate|].
  destruct (Hrows [mkAvailabilityRow "pizza" true; mkAvailabilityRow "cola" false]
                  eq_refl) as (Hvalid & _ & Hafter).
  rewrite Hvalid, Hafter. split; reflexivity.
Defined.

(** *** cartItemsByCategory *)

Lemma group_push (k key : string) (item : CartLine) (acc : Groups) :
  group k (push_group key item acc) =
  if (key =? k)%string
  then Some (match group k acc with Some items => items | None => [] end ++ [item])
  else group k acc.
Proof.
  induction acc as [|[k' items] rest IH]; simpl.
  - destruct (key =? k)%string; reflexivity.
  - destruct (String.eqb_spec k' key) as [E|E]; simpl.
    + subst k'. destruct (key =? k)%string; reflexivity.
    + destruct (String.eqb_spec k' k) as [E'|E'].
      * subst k'. destruct (String.eqb_spec key k); [congruence | reflexivity].
      * exact IH.
Qed.

Lemma group_fold (k : string) (c : cart) (acc : Groups) :
  group k (fold_left (fun acc item => push_group (category_or_other item) item acc)
                     c acc) =
  match group k acc, filter (fun l => (category_or_other l =? k)%string) c with
  | None, [] => None
  | None, ls => Some ls
  | Some items, ls => Some (items ++ ls)
  end.
Proof.
  revert acc. induction c as [|x t IH]; intros acc; simpl.
  - destruct (group k acc); [now rewrite app_nil_r | reflexivity].
  - rewrite IH, group_push.
    destruct (category_or_other x =? k)%string.
    + destruct (group k acc) as [items|]; simpl.
      * now rewrite <- app_assoc.
      * reflexivity.
    + destruct (group k acc); reflexivity.
Qed.

Lemma group_step_thrown (c : cart) (message : string) :
  fold_left group_step c (Rejected message) = Rejected message.
Proof. induction c as [|x t IH]; [reflexivity | exact IH]. Qed.

Lemma group_step_own (c : cart) (g : Groups) :
  (forall l, In l c -> is_inherited (category_or_other l) = false) ->
  fold_left group_step c (Fulfilled g) =
  Fulfilled (fold_left (fun acc item => push_group (category_or_other item) item acc)
                       c g).
Proof.
  revert g. induction c as [|x t IH]; intros g Hown; [reflexivity|].
  simpl. rewrite (Hown x (or_introl eq_refl)). apply IH.
  intros l Hl. apply Hown. now right.
Qed.

Lemma group_step_inherited (c : cart) (g : Groups) :
  (exists l, In l c /\ is_inherited (category_or_other l) = true) ->
  exists message, fold_left group_step c (Fulfilled g) = Rejected message.
Proof.
  revert g. induction c as [|x t IH]; intros g (l & Hl & Hinh); [destruct Hl|].
  simpl. destruct (is_inherited (category_or_other x)) eqn:E.
  - eexists. apply group_step_thrown.
  - apply IH. destruct Hl as [->|Hl]; [congruence | eauto].
Qed.

(** X10. When no line's category is a name that every object inherits
    ([constructor], [toString], [__proto__], ...), [cartItemsByCategory] is
    an object in which the entry of a category holds exactly the cart's
    lines of that category, in cart order (a line without category going
    under ['other']), and a category without lines has no entry. When some
    line has such a category, the [reduce] throws. *)
Theorem cartItemsByCategory_groups (c : cart) :
  ((forall l, In l c -> is_inherited (category_or_other l) = false) ->
   exists g, cartItemsByCategory c = Fulfilled g /\
     forall k, group k g =
               match filter (fun l => (category_or_other l =? k)%string) c with
               | [] => None
               | ls => Some ls
               end) /\
  ((exists l, In l c /\ is_inherited (category_or_other l) = true) ->
   exists message, cartItemsByCategory c = Rejected message).
Proof.
  unfold cartItemsByCategory. split.
  - intros Hown. eexists. split; [apply (group_step_own c [] Hown)|].
    intros k. rewrite group_fold. reflexivity.
  - apply group_step_inherited.
Qed.

Lemma cartItemsByCategory_groups_witness :
  (exists g, cartItemsByCategory two_item_cart = Fulfilled g /\
             group "drinks" g = Some (lines_for "cola" "" two_item_cart)) /\
  (exists message,
     cartItemsByCategory
       [new_line (mkMenuItem "x1" "Special" (QArith_base.Qmake 100 100)
                             "constructor" None None true)
                 1 "" "1700000000900_ddddddddd"]
     = Rejected message).
Proof.
  split.
  - destruct (cartItemsByCategory_groups two_item_cart) as [Hown _].
    destruct Hown as (g & Hg & Hgroups).
    + intros l [<-|[<-|[]]]; reflexivity.
    + exists g. split; [exact Hg|]. rewrite Hgroups. reflexivity.
  - apply (cartItemsByCategory_groups
             [new_line (mkMenuItem "x1" "Special" (QArith_base.Qmake 100 100)
                                   "constructor" None None true)
                       1 "" "1700000000900_ddddddddd"]).
    eexists. split; [left; reflexivity | reflexivity].
Defined.

End CartDerivedProps.

(* ------------------------------------------------------------------ *)
(** ** Properties of the mirrors and their views *)

Module MirrorsProps.
Import Data Reconciler Mirrors.

Section Keyed.
Context {R : Type}.
Variable key : R -> string.

Lemma remove_absent (k : string) (prev : list R) :
  (forall item, In item prev -> key item <> k) ->
  filter (fun item => negb (key item =? k)%string) prev = prev.
Proof.
  intros Habs. induction prev as [|x t IH]; simpl; [reflexivity|].
  destruct (String.eqb_spec (key x) k) as [E|_].
  - exfalso. apply (Habs x); [now left | exact E].
  - simpl. f_equal. apply IH. intros item Hin. apply Habs. now right.
Qed.

Lemma keys_after_replace (new : R) (prev : list R) :
  map key (map (fun item => if (key item =? key new)%string then new else item) prev)
  = map key prev.
Proof.
  rewrite map_map. apply map_ext. intros item.
  destruct (String.eqb_spec (key item) (key new)); congruence.
Qed.

Lemma keys_after_remove (k : string) (prev : list R) :
  NoDup (map key prev) ->
  NoDup (map key (filter (fun item => negb (key item =? k)%string) prev)).
Proof.
  induction prev as [|x t IH]; simpl; intros Hnd; [constructor|].
  apply NoDup_cons_iff in Hnd. destruct Hnd as [Hx Hnd].
  destruct (negb (key x =? k)%string); [|now apply IH].
  simpl. constructor; [|now apply IH].
  intros Hin. apply Hx. apply in_map_iff in Hin.
  destruct Hin as (y & E & Hy). apply filter_In in Hy.
  rewrite <- E. apply in_map. tauto.
Qed.

Lemma find_after_replace (new : R) (prev : list R) :
  find (fun item => (key item =? key new)%string)
       (map (fun item => if (key item =? key new)%string then new else item) prev)
  = option_map (fun _ => new)
               (find (fun item => (key item =? key new)%string) prev).
Proof.
  induction prev as [|x t IH]; simpl; [reflexivity|].
  destruct (key x =? key new)%string eqn:E.
  - now rewrite String.eqb_refl.
  - rewrite E. exact IH.
Qed.
End Keyed.

(** X11. A delete event for an id that the mirror does not hold leaves the
    mirror unchanged, in the menu handler and in the orders handler. *)
Theorem delete_of_absent_id_is_noop :
  (forall (old : MenuItem) (prev : list MenuItem),
      (forall item, In item prev -> mi_id item <> mi_id old) ->
      menu_onChange (DELETE old) prev = prev) /\
  (forall (old : Order) (prev : list Order),
      (forall order, In order prev -> ord_id order <> ord_id old) ->
      orders_onChange (DELETE old) prev = prev).
Proof.
  split; intros old prev Habs.
  - apply (remove_absent mi_id). exact Habs.
  - apply (remove_absent ord_id). exact Habs.
Qed.

Lemma delete_of_absent_id_is_noop_witness :
  orders_onChange (DELETE order_delivered) [order_pending] = [order_pending].
Proof.
  destruct delete_of_absent_id_is_noop as [_ H]. apply H.
  intros order [<-|[]]. vm_compute. discriminate.
Defined.

(** X12. An update event for an id the orders mirror holds puts the new row
    in the place of the old one: the ids of the mirror and their order are
    unchanged, a lookup of the id finds the new row, and rows with other ids
    are untouched. The menu handler does the same with the menu. *)
Theorem update_replaces_in_place :
  (forall (new : Order) (prev : list Order),
      map ord_id (orders_onChange (UPDATE new) prev) = map ord_id prev /\
      (getOrder (ord_id new) prev <> None ->
       getOrder (ord_id new) (orders_onChange (UPDATE new) prev) = Some new) /\
      (forall order, ord_id order <> ord_id new ->
         (In order (orders_onChange (UPDATE new) prev) <-> In order prev))) /\
  (forall (new : MenuItem) (prev : list MenuItem),
      map mi_id (menu_onChange (UPDATE new) prev) = map mi_id prev /\
      (getMenuItem (mi_id new) prev <> None ->
       getMenuItem (mi_id new) (menu_onChange (UPDATE new) prev) = Some new) /\
      (forall item, mi_id item <> mi_id new ->
         (In item (menu_onChange (UPDATE new) prev) <-> In item prev))).
Proof.
  split; intros new prev; (split; [|split]).
  - apply (keys_after_replace ord_id).
  - intros Hpresent. unfold getOrder in *. simpl.
    rewrite (find_after_replace ord_id).
    destruct (find _ prev); [reflexivity | now elim Hpresent].
  - intros order Hne. simpl. rewrite in_map_iff. split.
    + intros (x & E & Hx).
      destruct (String.eqb_spec (ord_id x) (ord_id new)); [congruence | now subst].
    + intros Hin. exists order. split; [|exact Hin].
      destruct (String.eqb_spec (ord_id order) (ord_id new)); [contradiction | reflexivity].
  - apply (keys_after_replace mi_id).
  - intros Hpresent. unfold getMenuItem in *. simpl.
    rewrite (find_after_replace mi_id).
    destruct (find _ prev); [reflexivity | now elim Hpresent].
  - intros item Hne. simpl. rewrite in_map_iff. split.
    + intros (x & E & Hx).
      destruct (String.eqb_spec (mi_id x) (mi_id new)); [congruence | now subst].
    + intros Hin. exists item. split; [|exact Hin].
      destruct (String.eqb_spec (mi_id item) (mi_id new)); [contradiction | reflexivity].
Qed.

Lemma update_replaces_in_place_witness :
  getOrder "o-1" (orders_onChange (UPDATE order_confirmed)
                                  [order_delivered; order_pending])
  = Some order_confirmed.
Proof.
  destruct update_replaces_in_place as [Hord _].
  destruct (Hord order_confirmed [order_delivered; order_pending]) as (_ & Hget & _).
  apply Hget. vm_compute. discriminate.
Defined.

(** X13. The orders handler keeps the ids of the mirror distinct: if no two
    orders of the mirror share an id, none do after any event. The menu
    handler keeps them distinct under update and delete events, and under an
    insert whose id the mirror does not hold yet. *)
Theorem handlers_keep_ids_distinct :
  (forall (e : Payload Order) (prev : list Order),
      NoDup (map ord_id prev) -> NoDup (map ord_id (orders_onChange e prev))) /\
  (forall (e : Payload MenuItem) (prev : list MenuItem),
      NoDup (map mi_id prev) ->
      (forall new, e = INSERT new -> ~ In (mi_id new) (map mi_id prev)) ->
      NoDup (map mi_id (menu_onChange e prev))).
Proof.
  split.
  - intros [new|new|old|ty] prev Hnd; simpl.
    + destruct (existsb _ prev) eqn:E; simpl; [exact Hnd|].
      constructor; [|exact Hnd].
      intros Hin. apply in_map_iff in Hin. destruct Hin as (x & Hx & Hin).
      assert (Ht : existsb (fun order => (ord_id order =? ord_id new)%string) prev = true).
      { apply existsb_exists. exists x. split; [exact Hin | now apply String.eqb_eq]. }
      congruence.
    + now rewrite (keys_after_replace ord_id).
    + now apply (keys_after_remove ord_id).
    + exact Hnd.
  - intros [new|new|old|ty] prev Hnd Hfresh; simpl.
    + rewrite map_app. simpl. apply NoDup_app; [exact Hnd | |].
      * constructor; [intros [] | constructor].
      * intros k Hk [<-|[]]. now apply (Hfresh new).
    + now rewrite (keys_after_replace mi_id).
    + now apply (keys_after_remove mi_id).
    + exact Hnd.
Qed.

Lemma handlers_keep_ids_distinct_witness :
  NoDup (map ord_id (orders_onChange (INSERT order_confirmed)
                                     [order_delivered; order_pending])) /\
  NoDup (map mi_id (menu_onChange (INSERT cola_off) [tiramisu])).
Proof.
  destruct handlers_keep_ids_distinct as [Hord Hmenu]. split.
  - apply Hord. repeat constructor; simpl; intuition discriminate.
  - apply Hmenu.
    + repeat constructor; simpl; intuition.
    + intros new E. inversion E; subst. simpl. intuition discriminate.
Defined.

(** X14. For an order whose id the mirror does not hold: once
    [submitNewOrder] has put it in front, the insert event that echoes it
    changes nothing, and a delete event for it gives back the mirror as it
    was; an insert event followed by the delete event does the same, in the
    orders mirror and in the menu mirror. *)
Theorem insert_then_delete_restores :
  (forall (o : Order) (prev : list Order),
      (forall order, In order prev -> ord_id order <> ord_id o) ->
      orders_onChange (INSERT o) (submitted o prev) = submitted o prev /\
      orders_onChange (DELETE o) (submitted o prev) = prev /\
      orders_onChange (DELETE o) (orders_onChange (INSERT o) prev) = prev) /\
  (forall (m : MenuItem) (prev : list MenuItem),
      (forall item, In item prev -> mi_id item <> mi_id m) ->
      menu_onChange (DELETE m) (menu_onChange (INSERT m) prev) = prev).
Proof.
  split.
  - intros o prev Habs.
    assert (Hdel : orders_onChange (DELETE o) (submitted o prev) = prev).
    { unfold submitted. simpl. rewrite String.eqb_refl. simpl.
      apply (remove_absent ord_id). exact Habs. }
    split; [|split; [exact Hdel|]].
    + unfold submitted. simpl. now rewrite String.eqb_refl.
    + assert (E : existsb (fun order => (ord_id order =? ord_id o)%string) prev = false).
      { apply not_true_is_false. intros H. apply existsb_exists in H.
        destruct H as (x & Hx & Hid). apply String.eqb_eq in Hid.
        now apply (Habs x). }
      unfold orders_onChange at 2. cbv zeta. rewrite E. exact Hdel.
  - intros m prev Habs. simpl. rewrite filter_app. simpl.
    rewrite String.eqb_refl. simpl. rewrite app_nil_r.
    apply (remove_absent mi_id). exact Habs.
Qed.

Lemma insert_then_delete_restores_witness :
  orders_onChange (DELETE order_pending)
                  (orders_onChange (INSERT order_pending) [order_delivered])
  = [order_delivered].
Proof.
  destruct insert_then_delete_restores as [Hord _].
  apply Hord. intros order [<-|[]]. vm_compute. discriminate.
Defined.

Lemma first_kept {A : Type} (p : A -> bool) (l : list A) (x : A) (t : list A) :
  filter p l = x :: t ->
  exists before after,
    l = before ++ x :: after /\ (forall y, In y before -> p y = false).
Proof.
  induction l as [|y ys IH]; simpl; [discriminate|].
  destruct (p y) eqn:E.
  - intros H. inversion H; subst. exists [], ys. split; [reflexivity|]. intros z [].
  - intros H. destruct (IH H) as (before & after & -> & Hbefore).
    exists (y :: before), after. split; [reflexivity|].
    intros z [<-|Hz]; [exact E | now apply Hbefore].
Qed.

(** X15. Every order of the mirror is in exactly one of three views: the
    active orders, the completed (delivered) orders, the cancelled orders.
    [currentOrder] is the first active order in the order of the mirror:
    every order before it is delivered or cancelled; and it is [null]
    exactly when every order is delivered or cancelled. *)
Theorem order_views_partition (orders : list Order) :
  List.length orders =
    (List.length (activeOrders orders) + List.length (completedOrders orders) +
     List.length (getOrdersByStatus "cancelled" orders))%nat /\
  (forall order, In order orders ->
     (In order (activeOrders orders) /\
      ~ In order (completedOrders orders) /\
      ~ In order (getOrdersByStatus "cancelled" orders)) \/
     (~ In order (activeOrders orders) /\
      In order (completedOrders orders) /\
      ~ In order (getOrdersByStatus "cancelled" orders)) \/
     (~ In order (activeOrders orders) /\
      ~ In order (completedOrders orders) /\
      In order (getOrdersByStatus "cancelled" orders))) /\
  (currentOrder orders = None <->
     forall order, In order orders ->
       ord_status order = "delivered" \/ ord_status order = "cancelled") /\
  (forall order, currentOrder orders = Some order ->
     ord_status order <> "delivered" /\
     ord_status order <> "cancelled" /\
     exists before after,
       orders = before ++ order :: after /\
       forall earlier, In earlier before ->
         ord_status earlier = "delivered" \/ ord_status earlier = "cancelled").
Proof.
  assert (Hclosed : forall o, is_closed o = true <->
            ord_status o = "delivered" \/ ord_status o = "cancelled").
  { intros o. unfold is_closed. cbn [existsb].
    rewrite !orb_true_iff, !String.eqb_eq. intuition congruence. }
  assert (Hactive : forall o, In o (activeOrders orders) <->
            In o orders /\ is_closed o = false).
  { intros o. unfold activeOrders. rewrite filter_In, negb_true_iff. tauto. }
  assert (Hdone : forall o, In o (completedOrders orders) <->
            In o orders /\ ord_status o = "delivered").
  { intros o. unfold completedOrders. now rewrite filter_In, String.eqb_eq. }
  assert (Hcancelled : forall o, In o (getOrdersByStatus "cancelled" orders) <->
            In o orders /\ ord_status o = "cancelled").
  { intros o. unfold getOrdersByStatus. now rewrite filter_In, String.eqb_eq. }
  split; [|split; [|split]].
  - clear Hactive Hdone Hcancelled.
    unfold activeOrders, completedOrders, getOrdersByStatus.
    induction orders as [|o t IH]; [reflexivity|].
    cbn [filter]. pose proof (Hclosed o) as Ho.
    destruct (is_closed o);
      destruct (String.eqb_spec (ord_status o) "delivered") as [E|E];
      destruct (String.eqb_spec (ord_status o) "cancelled") as [E'|E'];
      cbn [negb List.length]; try lia.
    + rewrite E in E'. discriminate.
    + destruct Ho as [Ho _]. destruct (Ho eq_refl); contradiction.
    + destruct Ho as [_ Ho]. discriminate Ho. now left.
    + destruct Ho as [_ Ho]. discriminate Ho. now left.
    + destruct Ho as [_ Ho]. discriminate Ho. now right.
  - intros o Ho. rewrite Hactive, Hdone, Hcancelled.
    pose proof (Hclosed o) as Hc.
    destruct (is_closed o).
    + destruct Hc as [Hc _]. destruct (Hc eq_refl) as [E|E].
      * right. left. repeat split; try tauto.
        -- intros [_ H]. discriminate.
        -- intros [_ H]. rewrite E in H. discriminate.
      * right. right. repeat split; try tauto.
        -- intros [_ H]. discriminate.
        -- intros [_ H]. rewrite E in H. discriminate.
    + left. split; [tauto|]. split; intros [_ E].
      * destruct Hc as [_ Hc]. discriminate Hc. now left.
      * destruct Hc as [_ Hc]. discriminate Hc. now right.
  - unfold currentOrder. split.
    + intros Hnone o Ho. apply Hclosed.
      destruct (is_closed o) eqn:E; [reflexivity|].
      assert (Hin : In o (activeOrders orders)) by (apply Hactive; tauto).
      destruct (activeOrders orders); [destruct Hin | discriminate].
    + intros Hall. destruct (activeOrders orders) as [|o t]; [reflexivity|].
      assert (Hin : In o (o :: t)) by now left.
      apply Hactive in Hin. destruct Hin as [Hin Ho].
      apply Hall, Hclosed in Hin. congruence.
  - intros o Hcur. unfold currentOrder in Hcur.
    destruct (activeOrders orders) as [|o' t] eqn:Hfirst; [discriminate|].
    inversion Hcur; subst o'.
    assert (Hin : In o (o :: t)) by now left.
    apply Hactive in Hin. destruct Hin as [Hin Ho].
    split; [|split].
    + intros Hst. assert (is_closed o = true) by (apply Hclosed; tauto). congruence.
    + intros Hst. assert (is_closed o = true) by (apply Hclosed; tauto). congruence.
    + rewrite <- Hfirst in Hactive. clear Hactive.
      unfold activeOrders in Hfirst. apply first_kept in Hfirst.
      destruct Hfirst as (before & after & Hsplit & Hbefore).
      exists before, after. split; [exact Hsplit|].
      intros earlier He. apply Hclosed. apply Hbefore in He.
      now apply negb_false_iff in He.
Qed.

Lemma order_views_partition_witness :
  currentOrder [order_delivered; Reconciler.order_pending;
                mkOrder "o-9" 4 (QArith_base.Qmake 100 100) "ready" "sess-4"]
  = Some Reconciler.order_pending /\
  ord_status Reconciler.order_pending <> "delivered" /\
  In Reconciler.order_pending (activeOrders [order_delivered; Reconciler.order_pending]).
Proof.
  split; [reflexivity|].
  destruct (order_views_partition
              [order_delivered; Reconciler.order_pending;
               mkOrder "o-9" 4 (QArith_base.Qmake 100 100) "ready" "sess-4"])
    as (_ & _ & _ & Hcur).
  destruct (Hcur Reconciler.order_pending eq_refl) as (Hnot & _ & _).
  split; [exact Hnot|].
  destruct (order_views_partition [order_delivered; Reconciler.order_pending])
    as (_ & Hone & _ & _).
  destruct (Hone Reconciler.order_pending) as [H|[H|H]].
  - right. left. reflexivity.
  - tauto.
  - destruct H as (_ & H & _). apply filter_In in H. destruct H as [_ H].
    vm_compute in H. discriminate.
  - destruct H as (_ & _ & H). apply filter_In in H. destruct H as [_ H].
    vm_compute in H. discriminate.
Defined.

(** *** checkItemsAvailability *)

Lemma none_filtered {A : Type} (p : A -> bool) (l : list A) :
  (Z.of_nat (List.length (filter p l)) =? 0) = forallb (fun x => negb (p x)) l.
Proof.
  induction l as [|x t IH]; simpl; [reflexivity|].
  destruct (p x); simpl; [|exact IH].
  destruct (Z.eqb_spec (Z.of_nat (S (List.length (filter p t)))) 0); [lia | reflexivity].
Qed.

(** X16. [checkItemsAvailability] answers [allAvailable] exactly when every
    requested id is found in the menu mirror and the entry found is
    available. The ids it reports are requested ids, each either missing
    from the mirror or found unavailable; an id the mirror does not know is
    reported. *)
Theorem checkItemsAvailability_sound (menuItems : list MenuItem)
        (itemIds : list string) :
  (Cart.allAvailable (checkItemsAvailability menuItems itemIds) = true <->
   forall k, In k itemIds ->
     exists item, getMenuItem k menuItems = Some item /\
                  mi_is_available item = true) /\
  (forall k, In k (Cart.unavailableIds (checkItemsAvailability menuItems itemIds)) <->
     In k itemIds /\
     (getMenuItem k menuItems = None \/
      exists item, getMenuItem k menuItems = Some item /\
                   mi_is_available item = false)).
Proof.
  assert (Hbad : forall k, not_orderable menuItems k = false <->
            exists item, getMenuItem k menuItems = Some item /\
                         mi_is_available item = true).
  { intros k. unfold not_orderable.
    destruct (getMenuItem k menuItems) as [item|].
    - rewrite negb_false_iff. split; [eauto|]. intros (i & E & Hi). congruence.
    - split; [discriminate|]. intros (i & E & _). discriminate. }
  unfold checkItemsAvailability. cbn [Cart.allAvailable Cart.unavailableIds]. split.
  - rewrite none_filtered, forallb_forall. split.
    + intros H k Hk. apply Hbad. apply negb_true_iff. now apply H.
    + intros H k Hk. apply negb_true_iff, Hbad. now apply H.
  - intros k. rewrite filter_In. unfold not_orderable.
    destruct (getMenuItem k menuItems) as [item|]; split.
    + intros [Hk Hav]. apply negb_true_iff in Hav. eauto.
    + intros [Hk [E|(i & E & Hi)]]; [discriminate|].
      inversion E; subst. split; [exact Hk|]. now rewrite Hi.
    + intros [Hk _]. auto.
    + intros [Hk _]. auto.
Qed.

Lemma checkItemsAvailability_sound_witness :
  Cart.allAvailable (checkItemsAvailability [tiramisu; cola_off] ["7c1f"]) = true /\
  Cart.unavailableIds (checkItemsAvailability [tiramisu; cola_off]
                                              ["7c1f"; "cola"; "soup"])
  = ["cola"; "soup"].
Proof.
  split; [|reflexivity].
  apply (checkItemsAvailability_sound [tiramisu; cola_off] ["7c1f"]).
  intros k [<-|[]]. exists tiramisu. split; reflexivity.
Defined.

Lemma filter_all {A : Type} (p : A -> bool) (l : list A) :
  forallb p l = true -> filter p l = l.
Proof.
  induction l as [|x t IH]; simpl; [reflexivity|].
  intros H. apply andb_true_iff in H. destruct H as [Hx Ht].
  rewrite Hx. f_equal. now apply IH.
Qed.

(** X17. With the menu hook's [checkItemsAvailability] as the capability,
    [validateCart] on a cart with lines keeps exactly the lines whose menu
    item is in the menu mirror and available there, so every line that
    remains can be ordered; and the cart is valid exactly when that holds of
    every line. *)
Theorem validateCart_against_menu (menuItems : list MenuItem) (c : Cart.cart) :
  c <> [] ->
  Cart.cart_after
    (Cart.validateCart (fun ids => Fulfilled (checkItemsAvailability menuItems ids)) c)
  = filter (fun l => negb (not_orderable menuItems (Cart.id l))) c /\
  Cart.valid
    (Cart.result
       (Cart.validateCart (fun ids => Fulfilled (checkItemsAvailability menuItems ids)) c))
  = forallb (fun l => negb (not_orderable menuItems (Cart.id l))) c /\
  (forall l,
      In l (Cart.cart_after
              (Cart.validateCart
                 (fun ids => Fulfilled (checkItemsAvailability menuItems ids)) c)) ->
      exists item, getMenuItem (Cart.id l) menuItems = Some item /\
                   mi_is_available item = true).
Proof.
  intros Hne.
  set (ids := Cart.distinct [] (map Cart.id c)).
  assert (Hids : forall l, In l c -> In (Cart.id l) ids).
  { intros l Hl. apply CartDerivedProps.In_distinct. split; [now apply in_map | intros []]. }
  assert (Hall : forallb (fun k => negb (not_orderable menuItems k)) ids =
                 forallb (fun l => negb (not_orderable menuItems (Cart.id l))) c).
  { apply Bool.eq_iff_eq_true. rewrite !forallb_forall. split.
    - intros H l Hl. apply H. now apply Hids.
    - intros H k Hk. apply CartDerivedProps.In_distinct in Hk.
      destruct Hk as [Hk _]. apply in_map_iff in Hk.
      destruct Hk as (l & <- & Hl). now apply H. }
  assert (Hkept :
    Cart.cart_after
      (Cart.validateCart (fun ids => Fulfilled (checkItemsAvailability menuItems ids)) c)
    = filter (fun l => negb (not_orderable menuItems (Cart.id l))) c /\
    Cart.valid
      (Cart.result
         (Cart.validateCart (fun ids => Fulfilled (checkItemsAvailability menuItems ids)) c))
    = forallb (fun l => negb (not_orderable menuItems (Cart.id l))) c).
  { destruct c as [|x t]; [congruence|].
    unfold Cart.validateCart. fold ids.
    unfold checkItemsAvailability. cbn [Cart.allAvailable Cart.unavailableIds].
    rewrite none_filtered, Hall.
    destruct (forallb (fun l => negb (not_orderable menuItems (Cart.id l))) (x :: t))
      eqn:E; cbn [negb Cart.cart_after Cart.result Cart.valid].
    - split; [|reflexivity]. symmetry. now apply filter_all.
    - split; [|reflexivity]. apply filter_ext_in. intros l Hl. f_equal.
      apply Bool.eq_iff_eq_true.
      rewrite CartDerivedProps.includes_In, filter_In.
      split; [tauto|]. intros Hbad. split; [now apply Hids | exact Hbad]. }
  destruct Hkept as [Hafter Hvalid]. split; [exact Hafter|]. split; [exact Hvalid|].
  intros l Hl. rewrite Hafter in Hl. apply filter_In in Hl. destruct Hl as [_ Hl].
  apply negb_true_iff in Hl. unfold not_orderable in Hl.
  destruct (getMenuItem (Cart.id l) menuItems) as [item|]; [|discriminate].
  exists item. split; [reflexivity|]. now apply negb_false_iff.
Qed.

Lemma validateCart_against_menu_witness :
  map Cart.id
      (Cart.cart_after
         (Cart.validateCart
            (fun ids => Fulfilled (checkItemsAvailability
                                     [Cart.pizza; cola_off] ids))
            CartDerived.two_item_cart))
  = ["pizza"].
Proof.
  destruct (validateCart_against_menu [Cart.pizza; cola_off] CartDerived.two_item_cart)
    as (Hafter & _); [discriminate|].
  rewrite Hafter. reflexivity.
Defined.

End MirrorsProps.

(* ------------------------------------------------------------------ *)
(** ** Properties of the retry utility, the menu cache and fetchMenuData *)

Module ApiProps.
Import Data Api.

(** *** withRetry *)

Lemma sum_backoff (delay : Z) (n : nat) :
  fold_right Z.add 0 (backoff delay 0 n) = delay * (2 ^ Z.of_nat n - 1).
Proof.
  assert (Hgen : forall (l : list Z) (a : Z),
             fold_right Z.add a l = fold_right Z.add 0 l + a).
  { induction l as [|x t IHl]; intros a; simpl; [lia|]. rewrite IHl. lia. }
  unfold backoff. induction n as [|n IH]; [simpl; lia|].
  rewrite seq_S, map_app, fold_right_app. cbn [map fold_right Nat.add].
  rewrite Hgen, IH, Nat2Z.inj_succ, Z.pow_succ_r by lia. ring.
Qed.

Lemma retry_from_calls {A : Type} (fn : nat -> Settled A) (delay : Z)
      (remaining : nat) :
  forall i lastError slept,
    (calls (retry_from fn delay i remaining lastError slept) <= i + remaining)%nat.
Proof.
  induction remaining as [|r IH]; intros i lastError slept; simpl; [lia|].
  destruct (fn i) as [v|e]; simpl; [lia|].
  specialize (IH (S i) (Some e)
                 (match r with O => slept | S _ => slept ++ [delay * 2 ^ Z.of_nat i] end)).
  lia.
Qed.

Lemma retry_from_success {A : Type} (fn : nat -> Settled A) (delay : Z)
      (k : nat) (v : A) :
  fn k = Fulfilled v ->
  forall remaining i lastError slept,
    (i <= k)%nat -> (k < i + remaining)%nat ->
    (forall j, (i <= j)%nat -> (j < k)%nat -> exists e, fn j = Rejected e) ->
    retry_from fn delay i remaining lastError slept =
    mkRetryRun (Returned v) (S k) (slept ++ backoff delay i (k - i)).
Proof.
  intros Hk. induction remaining as [|r IH]; intros i lastError slept Hle Hlt Hfail.
  - lia.
  - simpl. destruct (Nat.eq_dec i k) as [->|Hne].
    + rewrite Hk, Nat.sub_diag. unfold backoff. simpl. now rewrite app_nil_r.
    + destruct (Hfail i) as [e He]; [lia | lia|]. rewrite He.
      destruct r as [|r']; [lia|].
      rewrite (IH (S i)); [|lia|lia|intros j H1 H2; apply Hfail; lia].
      f_equal. rewrite <- app_assoc. f_equal.
      replace (k - i)%nat with (S (k - S i)) by lia. reflexivity.
Qed.

Lemma retry_from_exhausted {A : Type} (fn : nat -> Settled A) (delay : Z) :
  forall remaining i lastError slept e,
    (forall j, (i <= j)%nat -> (j < i + S remaining)%nat ->
               exists e', fn j = Rejected e') ->
    fn (i + remaining)%nat = Rejected e ->
    retry_from fn delay i (S remaining) lastError slept =
    mkRetryRun (Threw (Some e)) (i + S remaining)
               (slept ++ backoff delay i remaining).
Proof.
  induction remaining as [|r IH]; intros i lastError slept e Hfail Hlast.
  - simpl. rewrite Nat.add_0_r in Hlast. rewrite Hlast.
    unfold backoff. simpl. rewrite app_nil_r. f_equal. lia.
  - destruct (Hfail i) as [e' He']; [lia | lia|].
    change (retry_from fn delay i (S (S r)) lastError slept)
      with (match fn i with
            | Fulfilled value => mkRetryRun (Returned value) (S i) slept
            | Rejected e0 =>
                retry_from fn delay (S i) (S r) (Some e0)
                           (slept ++ [delay * 2 ^ Z.of_nat i])
            end).
    rewrite He'.
    rewrite (IH (S i) (Some e') (slept ++ [delay * 2 ^ Z.of_nat i]) e).
    + f_equal; [lia|]. rewrite <- app_assoc. reflexivity.
    + intros j H1 H2. apply Hfail; lia.
    + replace (S i + r)%nat with (i + S r)%nat by lia. exact Hlast.
Qed.

(** X18. [withRetry] calls [fn] at most [maxRetries] times and stops at the
    first call that succeeds. When the call number [k] (counting from 0) is
    the first to succeed and [k < maxRetries], it returns that call's value
    after [k + 1] calls, having slept [delay], [2 delay], [4 delay], ...
    between them: [delay * (2^k - 1)] in all. *)
Theorem withRetry_returns_first_success {A : Type} (fn : nat -> Settled A)
        (maxRetries : nat) (delay : Z) :
  (calls (withRetry fn maxRetries delay) <= maxRetries)%nat /\
  forall (k : nat) (v : A),
    (k < maxRetries)%nat ->
    (forall j, (j < k)%nat -> exists e, fn j = Rejected e) ->
    fn k = Fulfilled v ->
    outcome (withRetry fn maxRetries delay) = Returned v /\
    calls (withRetry fn maxRetries delay) = S k /\
    waits (withRetry fn maxRetries delay) = backoff delay 0 k /\
    total_wait (withRetry fn maxRetries delay) = delay * (2 ^ Z.of_nat k - 1).
Proof.
  split.
  - apply (retry_from_calls fn delay maxRetries 0 None []).
  - intros k v Hk Hfail Hok. unfold withRetry, total_wait.
    rewrite (retry_from_success fn delay k v Hok maxRetries 0 None []);
      [|lia|lia|intros j _ Hj; now apply Hfail].
    rewrite Nat.sub_0_r. simpl. repeat split. apply sum_backoff.
Qed.

Lemma withRetry_returns_first_success_witness :
  outcome (withRetry third_time_lucky 3 1000) = Returned "menu" /\
  total_wait (withRetry third_time_lucky 3 1000) = 3000.
Proof.
  destruct (withRetry_returns_first_success third_time_lucky 3 1000) as [_ H].
  destruct (H 2%nat "menu") as (Hout & _ & _ & Hwait).
  - lia.
  - intros j Hj. exists "503". unfold third_time_lucky.
    destruct (Nat.ltb_spec j 2); [reflexivity | lia].
  - reflexivity.
  - rewrite Hout, Hwait. split; reflexivity.
Defined.

(** X19. When every one of the [maxRetries] calls fails, [withRetry] throws
    the error of the last call, after exactly [maxRetries] calls and
    [delay * (2^(maxRetries - 1) - 1)] of sleep: it does not sleep after the
    last failure. With [maxRetries = 0] it calls nothing and throws
    [undefined]. *)
Theorem withRetry_throws_last_error {A : Type} (fn : nat -> Settled A)
        (maxRetries : nat) (delay : Z) :
  (maxRetries = O ->
   withRetry fn maxRetries delay = mkRetryRun (Threw None) 0 []) /\
  (forall e,
     (0 < maxRetries)%nat ->
     (forall j, (j < maxRetries)%nat -> exists e', fn j = Rejected e') ->
     fn (maxRetries - 1)%nat = Rejected e ->
     outcome (withRetry fn maxRetries delay) = Threw (Some e) /\
     calls (withRetry fn maxRetries delay) = maxRetries /\
     total_wait (withRetry fn maxRetries delay) =
       delay * (2 ^ Z.of_nat (maxRetries - 1) - 1)).
Proof.
  split.
  - intros ->. reflexivity.
  - intros e Hpos Hfail Hlast. destruct maxRetries as [|r]; [lia|].
    unfold withRetry, total_wait.
    replace (S r - 1)%nat with r in * by lia.
    rewrite (retry_from_exhausted fn delay r 0 None [] e);
      [|intros j _ Hj; apply Hfail; lia | exact Hlast].
    simpl. repeat split. apply sum_backoff.
Qed.

Lemma withRetry_throws_last_error_witness :
  outcome (withRetry never_answers 3 1000) = Threw (Some "503") /\
  total_wait (withRetry never_answers 3 1000) = 3000.
Proof.
  destruct (withRetry_throws_last_error never_answers 3 1000) as [_ H].
  destruct (H "503") as (Hout & _ & Hwait).
  - lia.
  - intros j _. exists "503". reflexivity.
  - reflexivity.
  - rewrite Hout, Hwait. split; reflexivity.
Defined.

(** *** SimpleCache *)

Lemma map_get_set {V : Type} (key : string) (item : CacheItem V) (m : SimpleCache V) :
  map_get key (map_set key item m) = Some item.
Proof.
  induction m as [|[k old] rest IH]; simpl.
  - now rewrite String.eqb_refl.
  - destruct (k =? key)%string eqn:E; simpl; rewrite E; [reflexivity | exact IH].
Qed.

Lemma map_get_set_other {V : Type} (key other : string) (item : CacheItem V)
      (m : SimpleCache V) :
  other <> key -> map_get other (map_set key item m) = map_get other m.
Proof.
  intros Hne. induction m as [|[k old] rest IH]; simpl.
  - destruct (String.eqb_spec key other); [congruence | reflexivity].
  - destruct (String.eqb_spec k key) as [E|E]; simpl.
    + subst k. destruct (String.eqb_spec key other); [congruence | reflexivity].
    + destruct (k =? other)%string; [reflexivity | exact IH].
Qed.

Lemma map_get_delete {V : Type} (key : string) (m : SimpleCache V) :
  map_get key (map_delete key m) = None.
Proof.
  unfold map_delete. induction m as [|[k old] rest IH]; simpl; [reflexivity|].
  destruct (k =? key)%string eqn:E; simpl; [exact IH|]. now rewrite E.
Qed.

Lemma cache_get_miss_stays {V : Type} (ttl : Z) (key : string) (now : Z)
      (c : SimpleCache V) :
  fst (cache_get ttl key now c) = None ->
  map_get key (snd (cache_get ttl key now c)) = None.
Proof.
  unfold cache_get. destruct (map_get key c) as [item|] eqn:E; simpl.
  - destruct (now - timestamp item >? ttl); simpl; [|discriminate].
    intros _. apply map_get_delete.
  - intros _. exact E.
Qed.

Lemma cache_get_live {V : Type} (ttl : Z) (key : string) (v : V) (t now : Z)
      (c : SimpleCache V) :
  now - t <= ttl ->
  cache_get ttl key now (cache_set key v t c) = (Some v, cache_set key v t c).
Proof.
  intros Hlive. unfold cache_get, cache_set. rewrite map_get_set. simpl.
  destruct (Z.gtb_spec (now - t) ttl); [lia | reflexivity].
Qed.

Lemma cache_get_dead {V : Type} (ttl : Z) (key : string) (v : V) (t now : Z)
      (c : SimpleCache V) :
  ttl < now - t ->
  fst (cache_get ttl key now (cache_set key v t c)) = None.
Proof.
  intros Hdead. unfold cache_get, cache_set. rewrite map_get_set. simpl.
  destruct (Z.gtb_spec (now - t) ttl); [reflexivity | lia].
Qed.

(** X20. A value stored in the cache at time [t] is returned by [get] as
    long as at most [ttl] ms have passed since [t], and the cache is left as
    it is. Later than that [get] returns [null] and removes the entry, so
    every later [get] of the key returns [null] as well, whatever the clock
    says. Storing under a key does not change what [get] returns for another
    key, and after [clear] every [get] returns [null]. *)
Theorem simple_cache_get_after_set {V : Type} (ttl : Z) (key : string) (v : V)
        (t : Z) (c : SimpleCache V) :
  (forall now, now - t <= ttl ->
     cache_get ttl key now (cache_set key v t c) = (Some v, cache_set key v t c)) /\
  (forall now, ttl < now - t ->
     fst (cache_get ttl key now (cache_set key v t c)) = None /\
     forall now',
       fst (cache_get ttl key now'
                      (snd (cache_get ttl key now (cache_set key v t c)))) = None) /\
  (forall other now, other <> key ->
     fst (cache_get ttl other now (cache_set key v t c)) =
     fst (cache_get ttl other now c)) /\
  (forall now, cache_get ttl key now (cache_clear c) = (None, [])).
Proof.
  split; [|split; [|split]].
  - intros now Hlive. now apply cache_get_live.
  - intros now Hdead.
    pose proof (cache_get_dead ttl key v t now c Hdead) as Hmiss.
    split; [exact Hmiss|]. intros now'.
    apply cache_get_miss_stays in Hmiss.
    unfold cache_get at 1. now rewrite Hmiss.
  - intros other now Hne. unfold cache_get, cache_set.
    rewrite (map_get_set_other key other _ c Hne).
    destruct (map_get other c) as [item|]; [|reflexivity].
    destruct (now - timestamp item >? ttl); reflexivity.
  - intros now. reflexivity.
Qed.

Lemma simple_cache_get_after_set_witness :
  fst (cache_get menu_ttl "menu" 300000 (cache_set "menu" [Reconciler.tiramisu] 0 []))
    = Some [Reconciler.tiramisu] /\
  fst (cache_get menu_ttl "menu" 300001 (cache_set "menu" [Reconciler.tiramisu] 0 []))
    = None.
Proof.
  destruct (simple_cache_get_after_set menu_ttl "menu" [Reconciler.tiramisu] 0 [])
    as (Hlive & Hdead & _).
  split.
  - rewrite Hlive; [reflexivity | vm_compute; discriminate].
  - apply Hdead. reflexivity.
Defined.

(** *** fetchMenuData *)

(** X21. After [refetchMenu] got the menu from the network at time [later],
    the mirror holds that menu, and a [fetchMenuData] that starts within
    300 000 ms of [later] returns the same menu from the cache without
    calling the network; one that starts later than that calls the network
    again, and so does any that runs after the cache was cleared (as every
    realtime event does). *)
Theorem refetch_then_served_from_cache
        (now later now2 later2 : Z) (data : list MenuItem)
        (answer2 : Settled (list MenuItem)) (st : MenuState)
        (cache : SimpleCache (list MenuItem)) :
  fetched (refetchMenu now later (Fulfilled data) st cache) = true /\
  menuItems (state_after (refetchMenu now later (Fulfilled data) st cache)) = data /\
  (now2 - later <= menu_ttl ->
   fetchMenuData true now2 later2 answer2
     (state_after (refetchMenu now later (Fulfilled data) st cache))
     (cache_after (refetchMenu now later (Fulfilled data) st cache))
   = mkFetchRun (mkMenuState data false None (Some later))
                (cache_after (refetchMenu now later (Fulfilled data) st cache))
                (Some data) false) /\
  (menu_ttl < now2 - later ->
   fetched (fetchMenuData true now2 later2 answer2
              (state_after (refetchMenu now later (Fulfilled data) st cache))
              (cache_after (refetchMenu now later (Fulfilled data) st cache)))
   = true) /\
  fetched (fetchMenuData true now2 later2 answer2
             (state_after (refetchMenu now later (Fulfilled data) st cache))
             (cache_clear
                (cache_after (refetchMenu now later (Fulfilled data) st cache))))
  = true.
Proof.
  unfold refetchMenu.
  change (fetchMenuData false now later (Fulfilled data) st cache)
    with (mkFetchRun (mkMenuState data false None (Some later))
                     (cache_set "menu" data later cache) (Some data) true).
  cbn [fetched state_after cache_after menuItems].
  split; [reflexivity|]. split; [reflexivity|]. split; [|split].
  - intros Hfresh. unfold fetchMenuData.
    rewrite (cache_get_live menu_ttl "menu" data later now2 cache Hfresh).
    reflexivity.
  - intros Hstale. unfold fetchMenuData.
    pose proof (cache_get_dead menu_ttl "menu" data later now2 cache Hstale) as Hmiss.
    destruct (cache_get menu_ttl "menu" now2 (cache_set "menu" data later cache))
      as [hit cache1]. simpl in Hmiss. subst hit.
    destruct answer2 as [d|m]; [reflexivity|].
    destruct (cache_get menu_ttl "menu" later2 cache1); reflexivity.
  - unfold fetchMenuData.
    change (cache_get menu_ttl "menu" now2
              (cache_clear (cache_set "menu" data later cache)))
      with (@None (list MenuItem), @nil (string * CacheItem (list MenuItem))).
    destruct answer2 as [d|m]; [reflexivity|].
    destruct (cache_get menu_ttl "menu" later2 []); reflexivity.
Qed.

Lemma refetch_then_served_from_cache_witness :
  returned (fetchMenuData true 5000 5200 (Rejected "offline")
              (state_after (refetchMenu 1000 1200 (Fulfilled [Reconciler.tiramisu])
                                        empty_menu_state []))
              (cache_after (refetchMenu 1000 1200 (Fulfilled [Reconciler.tiramisu])
                                        empty_menu_state [])))
  = Some [Reconciler.tiramisu].
Proof.
  destruct (refetch_then_served_from_cache 1000 1200 5000 5200 [Reconciler.tiramisu]
              (Rejected "offline") empty_menu_state [])
    as (_ & _ & Hfresh & _).
  rewrite Hfresh; [reflexivity | vm_compute; discriminate].
Defined.

(** X22. When [fetchMenuData] finds nothing usable in the cache and the
    network fails, the menu of the mirror is left exactly as it was, the
    loading flag is reset, nothing is returned, and the error shown is the
    failure's message, or ['Failed to load menu'] when it has none. When
    [refetchMenu] fails, the mirror takes the cached menu if the cache still
    holds a live one and otherwise keeps its menu: the menu is replaced as a
    whole or not at all. *)
Theorem fetch_failure_keeps_menu
        (now later : Z) (message : string) (st : MenuState)
        (cache : SimpleCache (list MenuItem)) :
  (fst (cache_get menu_ttl "menu" now cache) = None ->
   state_after (fetchMenuData true now later (Rejected message) st cache) =
     mkMenuState (menuItems st) false (Some (message_or_default message))
                 (lastFetch st) /\
   returned (fetchMenuData true now later (Rejected message) st cache) = None) /\
  state_after (refetchMenu now later (Rejected message) st cache) =
    mkMenuState (match fst (cache_get menu_ttl "menu" later cache) with
                 | Some cachedMenu => cachedMenu
                 | None => menuItems st
                 end)
                false (Some (message_or_default message)) (lastFetch st) /\
  message_or_default message <> "".
Proof.
  split; [|split].
  - intros Hmiss. pose proof (cache_get_miss_stays _ _ _ _ Hmiss) as Hgone.
    unfold fetchMenuData.
    destruct (cache_get menu_ttl "menu" now cache) as [hit cache1].
    simpl in Hmiss, Hgone. subst hit.
    unfold cache_get. rewrite Hgone. split; reflexivity.
  - unfold refetchMenu, fetchMenuData.
    destruct (cache_get menu_ttl "menu" later cache) as [fallback cache2].
    reflexivity.
  - unfold message_or_default.
    destruct (String.eqb_spec message ""); [discriminate | assumption].
Qed.

Lemma fetch_failure_keeps_menu_witness :
  state_after (fetchMenuData true 400000 400100 (Rejected "")
                 (mkMenuState [Reconciler.tiramisu] false None (Some 0))
                 (cache_set "menu" [] 0 []))
  = mkMenuState [Reconciler.tiramisu] false (Some "Failed to load menu") (Some 0).
Proof.
  destruct (fetch_failure_keeps_menu 400000 400100 ""
              (mkMenuState [Reconciler.tiramisu] false None (Some 0))
              (cache_set "menu" [] 0 [])) as [Hmiss _].
  destruct Hmiss as [Hstate _]; [reflexivity|].
  rewrite Hstate. reflexivity.
Defined.

End ApiProps.

(* ------------------------------------------------------------------ *)
(** ** More properties of the offline order queue *)

Module OfflineQueueViewsProps.
Import Data OfflineQueue OfflineQueueViews.

Lemma put_behind (r o : PendingOrder) (before rest : object_store) :
  id o = id r ->
  (forall x, In x before -> id x <> id r) ->
  put r (before ++ o :: rest) = before ++ r :: rest.
Proof.
  intros Ho Hbefore. unfold put.
  assert (Hkey : has_key (id r) (before ++ o :: rest) = true).
  { apply OfflineQueueProps.has_key_In. rewrite map_app. apply in_or_app.
    right. left. exact Ho. }
  rewrite Hkey. clear Hkey.
  induction before as [|x t IH]; simpl.
  - rewrite Ho, String.eqb_refl. reflexivity.
  - destruct (String.eqb_spec (id x) (id r)) as [E|_].
    + exfalso. apply (Hbefore x); [now left | exact E].
    + f_equal. apply IH. intros y Hy. apply Hbefore. now right.
Qed.

Lemma delete_behind (o : PendingOrder) (before rest : object_store) :
  (forall x, In x before -> id x <> id o) ->
  (forall x, In x rest -> id x <> id o) ->
  storage_delete (id o) (before ++ o :: rest) = before ++ rest.
Proof.
  intros Hbefore Hrest. unfold storage_delete.
  rewrite filter_app. simpl. rewrite String.eqb_refl. simpl.
  assert (Hkeep : forall l : object_store,
             (forall x, In x l -> id x <> id o) ->
             filter (fun r => negb (id r =? id o)%string) l = l).
  { induction l as [|x t IH]; simpl; intros Hl; [reflexivity|].
    destruct (String.eqb_spec (id x) (id o)) as [E|_].
    - exfalso. apply (Hl x); [now left | exact E].
    - simpl. f_equal. apply IH. intros y Hy. apply Hl. now right. }
  now rewrite (Hkeep before Hbefore), (Hkeep rest Hrest).
Qed.

Lemma sync_loop_results (net : Network) (now : Z) (todo : list PendingOrder)
      (acc : Run) :
  syncResults (sync_loop net now todo acc) =
  syncResults acc ++ map (result_for net) todo.
Proof.
  revert acc. induction todo as [|o rest IH]; intros acc.
  - simpl. now rewrite app_nil_r.
  - rewrite OfflineQueueProps.sync_loop_cons, IH. simpl.
    rewrite <- app_assoc. f_equal. simpl. f_equal.
    unfold result_for, settle. destruct (net o); reflexivity.
Qed.

Lemma sync_loop_store (net : Network) (now : Z) (todo : list PendingOrder) :
  NoDup (map id todo) ->
  forall (before : object_store) (res : list SyncResult) (sent : list PendingOrder),
    (forall x, In x before -> ~ In (id x) (map id todo)) ->
    db_after (sync_loop net now todo (mkRun (before ++ todo) res sent)) =
    before ++ flat_map (left_behind net now) todo.
Proof.
  induction todo as [|o rest IH]; intros Hnd before res sent Hbefore.
  - reflexivity.
  - simpl in Hnd. apply NoDup_cons_iff in Hnd. destruct Hnd as [Ho Hnd].
    assert (Hb : forall x, In x before -> id x <> id o).
    { intros x Hx E. apply (Hbefore x Hx). left. now symmetry. }
    assert (Hr : forall x, In x rest -> id x <> id o).
    { intros x Hx E. apply Ho. rewrite <- E. now apply in_map. }
    assert (Hb' : forall x, In x before -> ~ In (id x) (map id rest)).
    { intros x Hx Hin. apply (Hbefore x Hx). now right. }
    rewrite OfflineQueueProps.sync_loop_cons. cbn [db_after flat_map].
    unfold left_behind at 1, settle.
    destruct (net o) as [synced| |message]; cbn [fst snd].
    + rewrite (delete_behind o before rest Hb Hr).
      now rewrite (IH Hnd before _ _ Hb').
    + unfold storage_update. fold (stamped (retried now o) now).
      rewrite (put_behind (stamped (retried now o) now) o before rest);
        [|reflexivity | exact Hb].
      change (before ++ stamped (retried now o) now :: rest)
        with (before ++ [stamped (retried now o) now] ++ rest).
      rewrite app_assoc, (IH Hnd (before ++ [stamped (retried now o) now])).
      * now rewrite <- app_assoc.
      * intros x Hx. apply in_app_or in Hx. destruct Hx as [Hx|[<-|[]]].
        -- now apply Hb'.
        -- exact Ho.
    + change (before ++ o :: rest) with (before ++ [o] ++ rest).
      rewrite app_assoc, (IH Hnd (before ++ [o])).
      * now rewrite <- app_assoc.
      * intros x Hx. apply in_app_or in Hx. destruct Hx as [Hx|[<-|[]]].
        -- now apply Hb'.
        -- exact Ho.
Qed.

(** X23. One run of [syncPendingOrders] over a store with one record per id
    leaves, in their order, exactly the orders the server did not accept:
    an order answered without [ok] with its [retry_count] raised by one and
    [last_retry] set to the time of the run, an order whose post threw
    exactly as it was. It returns one result per stored order, in order,
    successful exactly for the accepted ones. *)
Theorem syncPendingOrders_leaves_unaccepted (net : Network) (now : Z)
        (db : object_store) :
  NoDup (map id db) ->
  db_after (syncPendingOrders net now db) = flat_map (left_behind net now) db /\
  syncResults (syncPendingOrders net now db) = map (result_for net) db /\
  map success (syncResults (syncPendingOrders net now db)) =
    map (fun o => match net o with PostOk _ => true | _ => false end) db.
Proof.
  intros Hnd. unfold syncPendingOrders, getPendingOrders.
  assert (Hres : syncResults (sync_loop net now db (mkRun db [] [])) =
                 map (result_for net) db)
    by apply sync_loop_results.
  split; [|split; [exact Hres|]].
  - apply (sync_loop_store net now db Hnd [] [] []). intros x [].
  - rewrite Hres, map_map. apply map_ext. intros o.
    unfold result_for. destruct (net o); reflexivity.
Qed.

Lemma syncPendingOrders_leaves_unaccepted_witness :
  db_after (syncPendingOrders (only_accepts "offline_1000_abcdefghi") 5000
                              [order_a; order_b])
  = [order_b_retried].
Proof.
  destruct (syncPendingOrders_leaves_unaccepted
              (only_accepts "offline_1000_abcdefghi") 5000 [order_a; order_b])
    as [Hdb _].
  - repeat constructor; simpl; intuition discriminate.
  - rewrite Hdb. reflexivity.
Defined.

(** X24. When the post of every stored order throws (the network is down),
    a run of [syncPendingOrders] leaves the store exactly as it was: no
    [retry_count] is raised and no [last_retry] is set, so such failures
    never use up an order's retries. Every order is still posted and
    reported as failed. *)
Theorem network_failure_is_not_a_retry (net : Network) (now : Z)
        (db : object_store) :
  (forall o, In o db -> exists message, net o = PostThrows message) ->
  db_after (syncPendingOrders net now db) = db /\
  posted (syncPendingOrders net now db) = db /\
  forall r, In r (syncResults (syncPendingOrders net now db)) -> success r = false.
Proof.
  intros Hdown. unfold syncPendingOrders, getPendingOrders.
  split; [|split].
  - assert (H : forall todo acc,
               (forall o, In o todo -> exists message, net o = PostThrows message) ->
               db_after (sync_loop net now todo acc) = db_after acc).
    { induction todo as [|o rest IH]; intros acc Hall; [reflexivity|].
      rewrite OfflineQueueProps.sync_loop_cons, IH.
      - destruct (Hall o (or_introl eq_refl)) as [m ->]. reflexivity.
      - intros o' Ho'. apply Hall. now right. }
    now rewrite H.
  - now rewrite OfflineQueueProps.posted_sync_loop.
  - intros r Hr. rewrite sync_loop_results in Hr. simpl in Hr.
    apply in_map_iff in Hr. destruct Hr as (o & <- & Ho).
    unfold result_for. destruct (Hdown o Ho) as [m ->]. reflexivity.
Qed.

Lemma network_failure_is_not_a_retry_witness :
  db_after (syncPendingOrders network_down 5000 after_two_failures) =
  after_two_failures.
Proof.
  apply (network_failure_is_not_a_retry network_down 5000 after_two_failures).
  intros o _. exists "Failed to fetch". reflexivity.
Defined.

(** X25. [addPendingOrder] on a store that does not hold the new id adds one
    record with status ['pending_sync'], no retries and the current time as
    timestamp, at the place of its key, and touches no other record; that
    order is due at once, so the next [retryFailedOrders], whenever it runs,
    posts every stored order. On a store that holds the id already it fails
    and stores nothing. *)
Theorem addPendingOrder_is_due (data stamp : string) (now : Z) (db : object_store) :
  (has_key ("offline_" ++ stamp)%string db = false ->
   addPendingOrder data stamp now db =
     Fulfilled (fresh_order data stamp now,
                insert_by_key (fresh_order data stamp now) db) /\
   (forall x, In x (insert_by_key (fresh_order data stamp now) db) <->
              x = fresh_order data stamp now \/ In x db) /\
   forall (net : Network) (t : Z),
     posted (retryFailedOrders net t (insert_by_key (fresh_order data stamp now) db))
     = insert_by_key (fresh_order data stamp now) db) /\
  (has_key ("offline_" ++ stamp)%string db = true ->
   exists message, addPendingOrder data stamp now db = Rejected message).
Proof.
  split.
  - intros Hfresh. split; [|split].
    + unfold addPendingOrder, storage_add. cbn [id]. rewrite Hfresh. reflexivity.
    + intros x. apply OfflineQueueProps.In_insert_by_key.
    + intros net t. unfold retryFailedOrders, getPendingOrders.
      assert (Hdue : In (fresh_order data stamp now)
                        (filter (eligible t)
                                (insert_by_key (fresh_order data stamp now) db))).
      { apply filter_In. split; [|reflexivity].
        apply OfflineQueueProps.In_insert_by_key. now left. }
      destruct (filter (eligible t) (insert_by_key (fresh_order data stamp now) db))
        as [|y ys]; [destruct Hdue|].
      cbn [List.length].
      destruct (Z.ltb_spec 0 (Z.of_nat (S (List.length ys)))); [|lia].
      unfold syncPendingOrders. now rewrite OfflineQueueProps.posted_sync_loop.
  - intros Hdup. unfold addPendingOrder, storage_add. cbn [id]. rewrite Hdup.
    eexists. reflexivity.
Qed.

Lemma addPendingOrder_is_due_witness :
  addPendingOrder "{table_number:2}" "0999_zzzzzzzzz" 999 after_three_failures =
    Fulfilled (fresh_order "{table_number:2}" "0999_zzzzzzzzz" 999,
               fresh_order "{table_number:2}" "0999_zzzzzzzzz" 999
                 :: after_three_failures) /\
  posted (retryFailedOrders always_ok 999999
            (fresh_order "{table_number:2}" "0999_zzzzzzzzz" 999
               :: after_three_failures))
  = fresh_order "{table_number:2}" "0999_zzzzzzzzz" 999 :: after_three_failures.
Proof.
  destruct (addPendingOrder_is_due "{table_number:2}" "0999_zzzzzzzzz" 999
                                   after_three_failures) as [Hfresh _].
  destruct (Hfresh eq_refl) as (Hadd & _ & Hdue).
  split; [exact Hadd | apply (Hdue always_ok 999999)].
Defined.

End OfflineQueueViewsProps.

(* ------------------------------------------------------------------ *)
(** ** More properties of the service worker's strategies *)

Module ServiceWorkerMoreProps.
Import Data ServiceWorker.

Lemma caches_match_put_static (u : string) (r : Response) (caches : CacheStorage) :
  storable r = true ->
  caches_match u (put_static u r caches) = Some r.
Proof.
  intros Hfull. unfold caches_match, put_static. simpl.
  now rewrite ServiceWorkerProps.cache_match_put.
Qed.

Lemma caches_match_put_dynamic (u : string) (r : Response) (caches : CacheStorage) :
  storable r = true ->
  caches_match u (put_dynamic u r caches) =
  match cache_match u (static_cache caches) with
  | Some s => Some s
  | None => Some r
  end.
Proof.
  intros Hfull. unfold caches_match, put_dynamic. simpl.
  destruct (cache_match u (static_cache caches)); [reflexivity|].
  now apply ServiceWorkerProps.cache_match_put.
Qed.

Lemma put_refused (u : string) (r : Response) (caches : CacheStorage) :
  storable r = false ->
  put_static u r caches = caches /\ put_dynamic u r caches = caches.
Proof.
  intros Hpartial. unfold put_static, put_dynamic.
  rewrite !(ServiceWorkerProps.cache_put_refused _ _ _ Hpartial).
  now destruct caches.
Qed.

(** X26. The worker writes to a cache only on a same-origin GET request
    whose [fetch] answered with an [ok] response, and what it writes is that
    response under the request's URL, in the static or the dynamic cache.
    In every other case the caches are left as they were: for a request of
    another method, for a response that is not [ok], for a [fetch] that
    rejects. A request of another origin is not answered by the worker at
    all. *)
Theorem only_ok_get_responses_are_cached (location_origin : string)
        (fetch : Request -> Settled Response)
        (request : Request) (caches : CacheStorage) :
  (origin request <> location_origin ->
   onFetch location_origin fetch request caches = None) /\
  (forall h, onFetch location_origin fetch request caches = Some h ->
     caches_after h = caches \/
     (method request = "GET" /\
      exists nr, fetch request = Fulfilled nr /\ ok nr = true /\
                 (caches_after h = put_static (url request) nr caches \/
                  caches_after h = put_dynamic (url request) nr caches))).
Proof.
  unfold onFetch. split.
  - intros Hcross.
    destruct (String.eqb_spec (origin request) location_origin);
      [contradiction | reflexivity].
  - intros h Hh.
    destruct (origin request =? location_origin)%string; [|discriminate].
    simpl in Hh.
    destruct (String.eqb_spec (method request) "GET") as [Hget|_];
      [|inversion Hh; now left].
    inversion Hh as [Hh']. clear Hh Hh'.
    unfold handleGetRequest, networkFirst, cacheFirst, staleWhileRevalidate.
    destruct (strategy_for (pathname request)).
    + destruct (fetch request) as [nr|msg] eqn:Hf.
      * destruct (ok nr) eqn:Hok; [|now left].
        right. split; [exact Hget|]. exists nr. auto.
      * left. destruct (caches_match (url request) caches); [reflexivity|].
        destruct (mode request =? "navigate")%string; reflexivity.
    + destruct (caches_match (url request) caches); [now left|].
      destruct (fetch request) as [nr|msg] eqn:Hf; [|now left].
      destruct (ok nr) eqn:Hok; [|now left].
      right. split; [exact Hget|]. exists nr. auto.
    + destruct (fetch request) as [nr|msg] eqn:Hf.
      * destruct (ok nr) eqn:Hok.
        -- right. split; [exact Hget|]. exists nr.
           split; [reflexivity|]. split; [exact Hok|]. right.
           destruct (cache_match (url request) (dynamic_cache caches)); reflexivity.
        -- left. destruct (cache_match (url request) (dynamic_cache caches));
             reflexivity.
      * left. destruct (cache_match (url request) (dynamic_cache caches));
          reflexivity.
Qed.

Lemma only_ok_get_responses_are_cached_witness :
  onFetch here (serves menu_v1) (mkRequest "https://cdn.example" "/lib.js" "" "GET" "cors")
          empty_caches = None /\
  (caches_after (networkFirst here (serves menu_v1) (get "/menu" "cors") empty_caches)
   = put_dynamic (url (get "/menu" "cors")) menu_v1 empty_caches).
Proof.
  destruct (only_ok_get_responses_are_cached here (serves menu_v1)
              (mkRequest "https://cdn.example" "/lib.js" "" "GET" "cors") empty_caches)
    as [Hcross _].
  split; [apply Hcross; discriminate | reflexivity].
Defined.

(** X27. Cache-first: when a cache holds a copy, that copy is the answer
    whatever the network does, and no cache changes. When none does and the
    network answers with an [ok] response that the cache accepts (it is not
    a partial response, status 206, and its [Vary] header does not hold
    [*]), that response is the answer and is stored, so that the same
    request is answered with it from then on, whatever the network does
    then. A response that the cache refuses is the answer as well, but it is
    not stored. *)
Theorem cacheFirst_serves_what_it_stored
        (fetch fetch' : Request -> Settled Response)
        (request : Request) (caches : CacheStorage) :
  (forall cached, caches_match (url request) caches = Some cached ->
     cacheFirst fetch request caches = mkHandled (Fulfilled (Some cached)) caches) /\
  (forall nr, caches_match (url request) caches = None ->
     fetch request = Fulfilled nr -> ok nr = true -> storable nr = true ->
     settled (cacheFirst fetch request caches) = Fulfilled (Some nr) /\
     cacheFirst fetch' request (caches_after (cacheFirst fetch request caches)) =
       mkHandled (Fulfilled (Some nr))
                 (caches_after (cacheFirst fetch request caches))) /\
  (forall nr, caches_match (url request) caches = None ->
     fetch request = Fulfilled nr -> storable nr = false ->
     cacheFirst fetch request caches = mkHandled (Fulfilled (Some nr)) caches).
Proof.
  unfold cacheFirst. split; [|split].
  - intros cached Hhit. now rewrite Hhit.
  - intros nr Hmiss Hnet Hok Hfull. rewrite Hmiss, Hnet, Hok. simpl.
    split; [reflexivity|]. now rewrite caches_match_put_static.
  - intros nr Hmiss Hnet Hpartial. rewrite Hmiss, Hnet.
    destruct (put_refused (url request) nr caches Hpartial) as [-> _].
    now destruct (ok nr).
Qed.

Lemma cacheFirst_serves_what_it_stored_witness :
  settled (cacheFirst offline (get "/static/js/bundle.js" "no-cors")
             (caches_after (cacheFirst (serves menu_v1)
                                       (get "/static/js/bundle.js" "no-cors")
                                       empty_caches)))
  = Fulfilled (Some menu_v1) /\
  cacheFirst (serves partial_content) (get "/static/intro.mp4" "no-cors") empty_caches
  = mkHandled (Fulfilled (Some partial_content)) empty_caches.
Proof.
  destruct (cacheFirst_serves_what_it_stored (serves menu_v1) offline
              (get "/static/js/bundle.js" "no-cors") empty_caches) as (_ & H & _).
  destruct (cacheFirst_serves_what_it_stored (serves partial_content) offline
              (get "/static/intro.mp4" "no-cors") empty_caches) as (_ & _ & Hp).
  split.
  - destruct (H menu_v1) as [_ Hnext];
      [reflexivity | reflexivity | reflexivity | reflexivity|].
    rewrite Hnext. reflexivity.
  - apply (Hp partial_content); reflexivity.
Defined.

(** X28. Network-first, online and then offline: after the network answered
    a request with an [ok] response that the cache accepts (it is not a
    partial response, status 206, and its [Vary] header does not hold [*]),
    the same request made while [fetch] rejects is answered from the caches;
    the answer is that last response when the static cache holds no entry
    for the URL, and the static cache's entry when it holds one. *)
Theorem networkFirst_falls_back_to_last_answer (location_origin : string)
        (fetch fetch' : Request -> Settled Response)
        (request : Request) (caches : CacheStorage) (nr : Response)
        (message : string) :
  fetch request = Fulfilled nr -> ok nr = true -> storable nr = true ->
  fetch' request = Rejected message ->
  settled (networkFirst location_origin fetch' request
             (caches_after (networkFirst location_origin fetch request caches))) =
  Fulfilled (Some (match cache_match (url request) (static_cache caches) with
                   | Some precached => precached
                   | None => nr
                   end)).
Proof.
  intros Hnet Hok Hfull Hdown. unfold networkFirst. rewrite Hnet, Hok. simpl.
  rewrite Hdown, (caches_match_put_dynamic _ _ _ Hfull).
  destruct (cache_match (url request) (static_cache caches)); reflexivity.
Qed.

Lemma networkFirst_falls_back_to_last_answer_witness :
  settled (networkFirst here offline (get "/menu" "cors")
             (caches_after (networkFirst here (serves menu_v1) (get "/menu" "cors")
                                         empty_caches)))
  = Fulfilled (Some menu_v1).
Proof.
  apply (networkFirst_falls_back_to_last_answer here (serves menu_v1) offline
           (get "/menu" "cors") empty_caches menu_v1 "TypeError: Failed to fetch");
    reflexivity.
Defined.

(** X29. Stale-while-revalidate: when the dynamic cache holds a copy, the
    copy is the answer whatever the network does; if the network answers
    with an [ok] response that the cache accepts (it is not a partial
    response, status 206, and its [Vary] header does not hold [*])
    meanwhile, the next request for the URL is answered with that response.
    When the cache holds no copy and the network answers, the network's
    response is the answer. *)
Theorem staleWhileRevalidate_serves_stale_then_fresh
        (fetch fetch' : Request -> Settled Response)
        (request : Request) (caches : CacheStorage) :
  (forall cached, cache_match (url request) (dynamic_cache caches) = Some cached ->
     settled (staleWhileRevalidate fetch request caches) = Fulfilled (Some cached)) /\
  (forall nr, fetch request = Fulfilled nr -> ok nr = true -> storable nr = true ->
     settled (staleWhileRevalidate fetch' request
                (caches_after (staleWhileRevalidate fetch request caches)))
     = Fulfilled (Some nr)) /\
  (forall nr, cache_match (url request) (dynamic_cache caches) = None ->
     fetch request = Fulfilled nr ->
     settled (staleWhileRevalidate fetch request caches) = Fulfilled (Some nr)).
Proof.
  unfold staleWhileRevalidate. split; [|split].
  - intros cached Hhit. now rewrite Hhit.
  - intros nr Hnet Hok Hfull. rewrite Hnet, Hok.
    assert (Hafter : forall h,
              h = mkHandled (Fulfilled (Some nr))
                            (put_dynamic (url request) nr caches) ->
              caches_after
                match cache_match (url request) (dynamic_cache caches) with
                | Some r => mkHandled (Fulfilled (Some r)) (caches_after h)
                | None => h
                end = put_dynamic (url request) nr caches).
    { intros h ->. destruct (cache_match _ _); reflexivity. }
    rewrite (Hafter _ eq_refl). cbn [put_dynamic dynamic_cache].
    now rewrite ServiceWorkerProps.cache_match_put.
  - intros nr Hmiss Hnet. now rewrite Hmiss, Hnet.
Qed.

Lemma staleWhileRevalidate_serves_stale_then_fresh_witness :
  settled (staleWhileRevalidate (serves server_error) (get "/menu" "cors") holding_menu)
  = Fulfilled (Some menu_v1) /\
  settled (staleWhileRevalidate offline (get "/about" "cors")
             (caches_after (staleWhileRevalidate (serves menu_v1)
                                                 (get "/about" "cors") empty_caches)))
  = Fulfilled (Some menu_v1).
Proof.
  destruct (staleWhileRevalidate_serves_stale_then_fresh
              (serves server_error) offline (get "/menu" "cors") holding_menu)
    as [Hstale _].
  destruct (staleWhileRevalidate_serves_stale_then_fresh
              (serves menu_v1) offline (get "/about" "cors") empty_caches)
    as (_ & Hfresh & _).
  split.
  - apply Hstale. reflexivity.
  - apply (Hfresh menu_v1); reflexivity.
Defined.

End ServiceWorkerMoreProps.
